(** * The waypoint updater node: forward window and deceleration profile

    A shallow embedding of [ros/src/waypoint_updater/waypoint_updater.py].

    Conventions of the embedding.
    - Python floats are idealised as real numbers ([R]): no rounding, no
      NaN, no infinities, and no [OverflowError] from [**] on a finite
      operand too large to square.  [math.sqrt] stays partial (it raises
      on a negative argument).
    - Python integers are [Z]; list indexing and slicing follow Python's
      rules for negative and out-of-range indices.
    - A Python exception is [None]; in [loop] it ends the node.
    - Waypoint messages are mutable objects: they live in a store, and a
      Python list of waypoints is a list of references into it.  The
      messages nested in a waypoint are values: [Waypoint()] builds its
      own twist, and no statement of the node assigns to a field of a pose
      message, so that [p.pose = wp.pose], which makes two waypoints share
      one pose object, is the copy of a value.
    - The file has no [from __future__ import division] and its shebang
      names [python] without a version, so [/] on two integers is floor
      division under Python 2 and true division under Python 3: the
      interpreter version is a parameter of the embedding. *)

From Stdlib Require Import Reals Lra Lia ZArith String.
From stdpp Require Import base option list.

(** ** Python primitives *)

Inductive PyVersion := Py2 | Py3.

(** [a / b] on two integer operands. *)
Definition py_int_div (v : PyVersion) (a b : Z) : R :=
  match v with
  | Py2 => IZR (a / b)
  | Py3 => (IZR a / IZR b)%R
  end.

(** [math.sqrt]: a [ValueError] on a negative argument. *)
Definition py_sqrt (x : R) : option R :=
  if Rlt_dec x 0 then None else Some (sqrt x).

(** The builtin [min(a, b)]: the first argument unless the second is
    strictly smaller. *)
Definition py_min (a b : R) : R :=
  if Rlt_dec b a then b else a.

(** The builtin [max(a, b)] on integers. *)
Definition py_max (a b : Z) : Z :=
  if (a <? b)%Z then b else a.

(** [l[i]]: a negative index counts from the end; an [IndexError] outside
    [-len(l) <= i < len(l)]. *)
Definition py_index {A : Type} (l : list A) (i : Z) : option A :=
  if (i <? 0)%Z then
    if (i + Z.of_nat (length l) <? 0)%Z then None
    else l !! Z.to_nat (i + Z.of_nat (length l))
  else l !! Z.to_nat i.

(** A bound of a slice, brought into [0 .. len]. *)
Definition py_slice_bound (len i : Z) : Z :=
  if (i <? 0)%Z then Z.max (i + len) 0 else Z.min i len.

(** [l[a:b]]: never raises; bounds beyond the list are clamped. *)
Definition py_slice {A : Type} (l : list A) (a b : Z) : list A :=
  let lo := py_slice_bound (Z.of_nat (length l)) a in
  let hi := py_slice_bound (Z.of_nat (length l)) b in
  take (Z.to_nat (hi - lo)) (drop (Z.to_nat lo) l).

(** ** Messages *)

(** Modelled from the spec: the message types.  [styx_msgs/Waypoint] and
    [styx_msgs/Lane] are declared in another package of the repository and
    the [geometry_msgs] types in ROS; the records below carry the fields
    the node reads and writes (a position, an orientation, a target speed
    in [twist.twist.linear.x]) with the nesting the code's attribute paths
    have. *)
Module Header.
Record t := mk { seq : Z; stamp : Z; frame_id : string }.
Definition new : t := mk 0 0 EmptyString.
End Header.

Module Point.
Record t := mk { x : R; y : R; z : R }.
Definition new : t := mk 0 0 0.
End Point.

Module Quaternion.
Record t := mk { x : R; y : R; z : R; w : R }.
Definition new : t := mk 0 0 0 0.
End Quaternion.

Module Pose.
Record t := mk { position : Point.t; orientation : Quaternion.t }.
Definition new : t := mk Point.new Quaternion.new.
End Pose.

Module PoseStamped.
Record t := mk { header : Header.t; pose : Pose.t }.
Definition new : t := mk Header.new Pose.new.
End PoseStamped.

Module Vector3.
Record t := mk { x : R; y : R; z : R }.
Definition new : t := mk 0 0 0.
Definition set_x (v : t) (r : R) : t := mk r (y v) (z v).
End Vector3.

Module Twist.
Record t := mk { linear : Vector3.t; angular : Vector3.t }.
Definition new : t := mk Vector3.new Vector3.new.
End Twist.

Module TwistStamped.
Record t := mk { header : Header.t; twist : Twist.t }.
Definition new : t := mk Header.new Twist.new.
End TwistStamped.

Module Waypoint.
Record t := mk { pose : PoseStamped.t; twist : TwistStamped.t }.

(** [Waypoint()]: every field at its default. *)
Definition new : t := mk PoseStamped.new TwistStamped.new.

(** [wp.pose.pose.position] *)
Definition position (wp : t) : Point.t :=
  Pose.position (PoseStamped.pose (pose wp)).

(** [wp.twist.twist.linear.x] *)
Definition linear_x (wp : t) : R :=
  Vector3.x (Twist.linear (TwistStamped.twist (twist wp))).

(** [p.pose = v] *)
Definition set_pose (p : t) (v : PoseStamped.t) : t := mk v (twist p).

(** [p.twist.twist.linear.x = v] *)
Definition set_linear_x (p : t) (v : R) : t :=
  let tw := TwistStamped.twist (twist p) in
  mk (pose p)
     (TwistStamped.mk (TwistStamped.header (twist p))
        (Twist.mk (Vector3.set_x (Twist.linear tw) v) (Twist.angular tw))).
End Waypoint.

(** ** The store of waypoint objects *)

(** A reference to a waypoint object. *)
Abbreviation loc := nat.

(** The store: the object with reference [l] is at position [l]; a new
    object gets the next free reference. *)
Abbreviation Heap := (list Waypoint.t).

(** Allocation of a new object. *)
Definition heap_alloc (h : Heap) (w : Waypoint.t) : loc * Heap :=
  (length h, h ++ [w]).

(** An attribute assignment on the object at [l]. *)
Definition heap_update (h : Heap) (l : loc) (f : Waypoint.t -> Waypoint.t)
  : option Heap :=
  w ← h !! l; Some (<[l := f w]> h).

Module Lane.
Record t := mk { header : Header.t; waypoints : list loc }.
Definition new : t := mk Header.new [].
Definition set_waypoints (l : t) (ws : list loc) : t := mk (header l) ws.
End Lane.

(** ** Module constants *)

Definition WAYPOINT_PUBLISHING_RATE : Z := 30.
Definition LOOKAHEAD_WPS : Z := 100.
Definition MAX_DECEL : R := 0.5%R.
Definition CONSTANT_DECEL (v : PyVersion) : R := py_int_div v 1 LOOKAHEAD_WPS.
Definition STOP_LINE_MARGIN : Z := 4.

(** ** The node *)

(** The interpreter version and the library class [scipy.spatial.KDTree]
    are parameters: [KDTree_new pts] is [KDTree(pts)], which may raise, and
    [KDTree_query tree (x, y)] is [tree.query([x, y], 1)[1]], the index of
    the point nearest to [(x, y)]. *)
Section WaypointUpdater.

Context (pyv : PyVersion).

Context {KDTree : Type}.
Context (KDTree_new : list (R * R) -> option KDTree).
Context (KDTree_query : KDTree -> R * R -> Z).

(** The instance fields set by [__init__] and the callbacks. *)
Record WaypointUpdater := mkWaypointUpdater {
  base_lane : option Lane.t;
  pose : option PoseStamped.t;
  stopline_wp_index : Z;
  waypoints_2d : option (list (R * R));
  waypoint_tree : option KDTree
}.

(** The fields as [__init__] leaves them. *)
Definition init : WaypointUpdater :=
  mkWaypointUpdater None None (-1) None None.

(** The truth value of [self.waypoints_2d]: [None] and the empty list
    are false. *)
Definition truthy_list {A : Type} (o : option (list A)) : bool :=
  match o with
  | None | Some [] => false
  | Some (_ :: _) => true
  end.

(** The truth value of a field holding a message or [None]. *)
Definition truthy_msg {A : Type} (o : option A) : bool :=
  match o with None => false | Some _ => true end.

Definition pose_cb (self : WaypointUpdater) (msg : PoseStamped.t)
  : WaypointUpdater :=
  mkWaypointUpdater (base_lane self) (Some msg) (stopline_wp_index self)
    (waypoints_2d self) (waypoint_tree self).

Definition traffic_cb (self : WaypointUpdater) (data : Z) : WaypointUpdater :=
  mkWaypointUpdater (base_lane self) (pose self) data
    (waypoints_2d self) (waypoint_tree self).

Definition obstacle_cb (self : WaypointUpdater) (data : Z) : WaypointUpdater :=
  self.

(** [[[wp.pose.pose.position.x, wp.pose.pose.position.y] for wp in ws]] *)
Definition positions_2d (h : Heap) (ws : list loc) : option (list (R * R)) :=
  mapM (fun l => w ← h !! l;
                 let position := Waypoint.position w in
                 Some (Point.x position, Point.y position))
       ws.

(** [waypoints_cb]: the state the callback leaves, also when the
    [KDTree] constructor raises (the fields assigned before it keep
    their new values). *)
Definition waypoints_cb (self : WaypointUpdater) (h : Heap) (waypoints : Lane.t)
  : option WaypointUpdater :=
  let self := mkWaypointUpdater (Some waypoints) (pose self)
                (stopline_wp_index self) (waypoints_2d self)
                (waypoint_tree self) in
  if truthy_list (waypoints_2d self) then Some self
  else
    pts ← positions_2d h (Lane.waypoints waypoints);
    let self := mkWaypointUpdater (base_lane self) (pose self)
                  (stopline_wp_index self) (Some pts) (waypoint_tree self) in
    match KDTree_new pts with
    | None => Some self
    | Some tree =>
        Some (mkWaypointUpdater (base_lane self) (pose self)
                (stopline_wp_index self) (waypoints_2d self) (Some tree))
    end.

Definition dot (a b : R * R) : R := (a.1 * b.1 + a.2 * b.2)%R.
Definition vsub (a b : R * R) : R * R := ((a.1 - b.1)%R, (a.2 - b.2)%R).

Definition get_closest_waypoint_index (self : WaypointUpdater) : option Z :=
  msg ← pose self;
  let x := Point.x (Pose.position (PoseStamped.pose msg)) in
  let y := Point.y (Pose.position (PoseStamped.pose msg)) in
  tree ← waypoint_tree self;
  let closest_index := KDTree_query tree (x, y) in
  pts ← waypoints_2d self;
  closest_coord ← py_index pts closest_index;
  prev_coord ← py_index pts (closest_index - 1);
  let val := dot (vsub closest_coord prev_coord) (vsub (x, y) closest_coord) in
  if Rlt_dec 0 val then
    if (Z.of_nat (length pts) =? 0)%Z then None
    else Some ((closest_index + 1) mod Z.of_nat (length pts))%Z
  else Some closest_index.

(** The lambda [dl] of [distance], over the reals: each operation is
    exact, and squaring never raises.  In the interpreter's doubles each
    operation rounds, and [**] raises [OverflowError] when the difference
    of two finite coordinates is too large to square; neither is part of
    the embedding. *)
Definition dl (a b : Point.t) : option R :=
  py_sqrt ((Point.x a - Point.x b) ^ 2 + (Point.y a - Point.y b) ^ 2
           + (Point.z a - Point.z b) ^ 2)%R.

(** [waypoints[i].pose.pose.position] *)
Definition position_at (h : Heap) (waypoints : list loc) (i : Z)
  : option Point.t :=
  l ← py_index waypoints i; w ← h !! l; Some (Waypoint.position w).

(** The loop of [distance]: [n] iterations remain, the loop variable is
    [i]; [wp1] is re-anchored to [i] after each step. *)
Fixpoint distance_loop (h : Heap) (waypoints : list loc) (n : nat)
    (i wp1 : Z) (dist : R) : option R :=
  match n with
  | O => Some dist
  | S n' =>
      a ← position_at h waypoints wp1;
      b ← position_at h waypoints i;
      d ← dl a b;
      distance_loop h waypoints n' (i + 1)%Z i (dist + d)%R
  end.

(** [for i in range(wp1, wp2+1)] runs [wp2 + 1 - wp1] times, or not at
    all when that is not positive. *)
Definition distance (h : Heap) (waypoints : list loc) (wp1 wp2 : Z)
  : option R :=
  distance_loop h waypoints (Z.to_nat (wp2 + 1 - wp1)) wp1 wp1 0%R.

(** One iteration of the loop of [decelerate_waypoints], for the pair
    [(i, wp)] of [enumerate(waypoints)]: the new store and the
    reference appended to [res]. *)
Definition decelerate_step (self : WaypointUpdater) (waypoints : list loc)
    (closest_index : Z) (i : Z) (wp : loc) (h : Heap) : option (loc * Heap) :=
  let '(p, h) := heap_alloc h Waypoint.new in
  w ← h !! wp;
  h ← heap_update h p (fun o => Waypoint.set_pose o (Waypoint.pose w));
  let stop_index :=
    py_max (stopline_wp_index self - closest_index - STOP_LINE_MARGIN) 0 in
  dist ← distance h waypoints i stop_index;
  s ← py_sqrt (2 * MAX_DECEL * dist)%R;
  let vel := (s + IZR i * CONSTANT_DECEL pyv)%R in
  let vel := if Rlt_dec vel 1 then 0%R else vel in
  w ← h !! wp;
  h ← heap_update h p (fun o => Waypoint.set_linear_x o
                                  (py_min vel (Waypoint.linear_x w)));
  Some (p, h).

Fixpoint decelerate_loop (self : WaypointUpdater) (waypoints : list loc)
    (closest_index : Z) (rest : list loc) (i : Z) (res : list loc) (h : Heap)
  : option (list loc * Heap) :=
  match rest with
  | [] => Some (res, h)
  | wp :: rest' =>
      '(p, h) ← decelerate_step self waypoints closest_index i wp h;
      decelerate_loop self waypoints closest_index rest' (i + 1)%Z
        (res ++ [p]) h
  end.

Definition decelerate_waypoints (self : WaypointUpdater) (waypoints : list loc)
    (closest_index : Z) (h : Heap) : option (list loc * Heap) :=
  decelerate_loop self waypoints closest_index waypoints 0%Z [] h.

(** [generate_lane]: the lane message and the store after the call. *)
Definition generate_lane (self : WaypointUpdater) (h : Heap)
  : option (Lane.t * Heap) :=
  let lane := Lane.new in
  closest_index ← get_closest_waypoint_index self;
  let farthest_index := (closest_index + LOOKAHEAD_WPS)%Z in
  bl ← base_lane self;
  let base_waypoints :=
    py_slice (Lane.waypoints bl) closest_index farthest_index in
  if ((stopline_wp_index self =? -1)
      || (farthest_index <=? stopline_wp_index self))%Z
  then Some (Lane.set_waypoints lane base_waypoints, h)
  else
    '(res, h) ← decelerate_waypoints self base_waypoints closest_index h;
    Some (Lane.set_waypoints lane res, h).

(** [publish_waypoints]: the lane handed to [final_waypoints_pub.publish]
    and the store. *)
Definition publish_waypoints (self : WaypointUpdater) (h : Heap)
  : option (Lane.t * Heap) :=
  generate_lane self h.

(** One turn of [loop] ([rate.sleep()] apart): the lane published, if
    any, and the store.  An exception ends the node. *)
Definition loop_body (self : WaypointUpdater) (h : Heap)
  : option (option Lane.t * Heap) :=
  if truthy_msg (pose self) && truthy_msg (base_lane self) then
    '(lane, h) ← publish_waypoints self h; Some (Some lane, h)
  else Some (None, h).

(** [get_waypoint_velocity] and [set_waypoint_velocity]: neither is
    called in this file. *)
Definition get_waypoint_velocity (h : Heap) (waypoint : loc) : option R :=
  Waypoint.linear_x <$> h !! waypoint.

Definition set_waypoint_velocity (h : Heap) (waypoints : list loc)
    (waypoint : Z) (velocity : R) : option Heap :=
  l ← py_index waypoints waypoint;
  heap_update h l (fun o => Waypoint.set_linear_x o velocity).

(** ** The subscriptions *)

(** The messages [__init__] subscribes to, one constructor per topic:
    [/current_pose] is handled by [pose_cb], [/base_waypoints] by
    [waypoints_cb] and [/traffic_waypoint] by [traffic_cb] (with the
    [data] of its [Int32]).  No topic is bound to [obstacle_cb]. *)
Inductive Message :=
| CurrentPose (msg : PoseStamped.t)
| BaseWaypoints (waypoints : Lane.t)
| TrafficWaypoint (data : Z).

(** The callback a message is handed to. *)
Definition deliver (self : WaypointUpdater) (h : Heap) (m : Message)
  : option WaypointUpdater :=
  match m with
  | CurrentPose msg => Some (pose_cb self msg)
  | BaseWaypoints waypoints => waypoints_cb self h waypoints
  | TrafficWaypoint data => Some (traffic_cb self data)
  end.

(** The messages of a list, delivered in order. *)
Fixpoint deliver_all (self : WaypointUpdater) (h : Heap) (ms : list Message)
  : option WaypointUpdater :=
  match ms with
  | [] => Some self
  | m :: ms' => self' ← deliver self h m; deliver_all self' h ms'
  end.

Definition pose_of_message (m : Message) : option PoseStamped.t :=
  match m with CurrentPose msg => Some msg | _ => None end.

Definition route_of_message (m : Message) : option Lane.t :=
  match m with BaseWaypoints waypoints => Some waypoints | _ => None end.

Definition stop_of_message (m : Message) : option Z :=
  match m with TrafficWaypoint data => Some data | _ => None end.

(** The content of the last message of one kind in a list, [start] when
    the list has none. *)
Definition latest {A : Type} (f : Message -> option A) (start : A)
    (ms : list Message) : A :=
  fold_left (fun acc m => default acc (f m)) ms start.

(** The first route message of a list that has a waypoint. *)
Fixpoint first_nonempty_route (ms : list Message) : option Lane.t :=
  match ms with
  | [] => None
  | BaseWaypoints waypoints :: ms' =>
      match Lane.waypoints waypoints with
      | [] => first_nonempty_route ms'
      | _ :: _ => Some waypoints
      end
  | _ :: ms' => first_nonempty_route ms'
  end.

(** ** The vocabulary of the specification *)

(** No dangling reference: every waypoint of the list is an object of the
    store. *)
Definition refs_ok (h : Heap) (ws : list loc) : Prop :=
  Forall (fun l => l < length h) ws.

(** Every route message of the list refers to waypoint objects of the
    store. *)
Definition routes_ok (h : Heap) (ms : list Message) : Prop :=
  Forall (fun m => forall r, route_of_message m = Some r ->
                             refs_ok h (Lane.waypoints r)) ms.

(** The Euclidean distance between two positions. *)
Definition euclid (a b : Point.t) : R :=
  sqrt ((Point.x a - Point.x b) ^ 2 + (Point.y a - Point.y b) ^ 2
        + (Point.z a - Point.z b) ^ 2)%R.

(** The position of the waypoint at index [i] of a list (the origin where
    there is none). *)
Definition pos_of (h : Heap) (ws : list loc) (i : Z) : Point.t :=
  default Point.new (position_at h ws i).

(** The chain distance over [n] consecutive pairs starting at index [k]. *)
Fixpoint chain_from (pos : Z -> Point.t) (n : nat) (k : Z) : R :=
  match n with
  | O => 0%R
  | S n' => (euclid (pos k) (pos (k + 1)%Z) + chain_from pos n' (k + 1)%Z)%R
  end.

(** The cumulative Euclidean chain distance from index [a] to index [b]:
    the sum of the distances between consecutive positions. *)
Definition chain_distance (pos : Z -> Point.t) (a b : Z) : R :=
  chain_from pos (Z.to_nat (b - a)) a.

(** [stopOffset = max(stopIndex - closest - MARGIN, 0)] *)
Definition stop_offset (stopIndex closest : Z) : Z :=
  Z.max (stopIndex - closest - STOP_LINE_MARGIN) 0.

(** [velocity = sqrt(2 * MAX_DECEL * dist) + i * CONSTANT_DECEL], snapped
    to [0] below the creep threshold [1]. *)
Definition profile_velocity (dist : R) (i : Z) : R :=
  let v := (sqrt (2 * MAX_DECEL * dist) + IZR i * CONSTANT_DECEL pyv)%R in
  if Rlt_dec v 1 then 0%R else v.

(** The bias as the specification words it, [CONSTANT_DECEL = 1 /
    LOOKAHEAD], a small per-step bias: the quotient of the reals. *)
Definition spec_CONSTANT_DECEL : R := (1 / IZR LOOKAHEAD_WPS)%R.

(** The velocity of the specification: [profile_velocity] with the
    specification's bias in place of the constant the interpreter
    computes. *)
Definition spec_velocity (dist : R) (i : Z) : R :=
  let v := (sqrt (2 * MAX_DECEL * dist) + IZR i * spec_CONSTANT_DECEL)%R in
  if Rlt_dec v 1 then 0%R else v.

(** The waypoint [decelerate_waypoints] builds from the base waypoint [w]
    and the speed [v]: a default waypoint with [w]'s pose and the speed
    set. *)
Definition decelerated (w : Waypoint.t) (v : R) : Waypoint.t :=
  Waypoint.set_linear_x (Waypoint.set_pose Waypoint.new (Waypoint.pose w)) v.

(** The waypoints [decelerate_waypoints] appends to the store for the
    base waypoints [rest], the first of which has local index [i]: each
    carries its base waypoint's pose and the smaller of the profile
    velocity and the base speed. *)
Fixpoint profile_outputs (h : Heap) (ws : list loc) (stop_index : Z)
    (rest : list loc) (i : Z) : list Waypoint.t :=
  match rest with
  | [] => []
  | wp :: rest' =>
      let w := default Waypoint.new (h !! wp) in
      decelerated w
        (Rmin (profile_velocity (chain_distance (pos_of h ws) i stop_index) i)
              (Waypoint.linear_x w))
      :: profile_outputs h ws stop_index rest' (i + 1)%Z
  end.

(** ** The route of the end-to-end example *)

(** Waypoint [k] of the example route: at [(k, 0, 0)], base speed [5.0]. *)
Definition example_waypoint (k : Z) : Waypoint.t :=
  Waypoint.mk
    (PoseStamped.mk Header.new (Pose.mk (Point.mk (IZR k) 0 0) Quaternion.new))
    (TwistStamped.mk Header.new (Twist.mk (Vector3.mk 5 0 0) Vector3.new)).

Definition example_indices : list Z := [0; 1; 2; 3; 4; 5; 6; 7; 8; 9]%Z.

(** The store holding the ten waypoints, and the route message. *)
Definition example_heap : Heap := example_waypoint <$> example_indices.
Definition example_lane : Lane.t := Lane.mk Header.new (seq 0 10).
Definition example_points : list (R * R) :=
  (fun k => (IZR k, 0%R)) <$> example_indices.

(** The node after the route, a pose at waypoint 0 and the stop index
    [stop] were received. *)
Definition example_self (tree : KDTree) (stop : Z) : WaypointUpdater :=
  mkWaypointUpdater (Some example_lane) (Some PoseStamped.new) stop
    (Some example_points) (Some tree).

(** A vehicle one unit before waypoint 0. *)
Definition pose_before_start : PoseStamped.t :=
  PoseStamped.mk Header.new (Pose.mk (Point.mk (-1) 0 0) Quaternion.new).

(** A stand-in for the library tree on the example route, for poses whose
    nearest waypoint is waypoint 0. *)
Definition nearest_is_first (tree : unit) (q : R * R) : Z := 0.
Definition unit_tree (pts : list (R * R)) : option unit := Some tt.

(** A route as long as the lookahead: a hundred waypoints (all at the
    origin), and the node on it with no stop. *)
Definition long_heap : Heap := replicate 100 (example_waypoint 0).
Definition long_lane : Lane.t := Lane.mk Header.new (seq 0 100).
Definition long_self (tree : KDTree) : WaypointUpdater :=
  mkWaypointUpdater (Some long_lane) (Some PoseStamped.new) (-1)
    (Some (replicate 100 (0%R, 0%R))) (Some tree).

(** Two one-waypoint routes in one store. *)
Definition two_waypoints : Heap := [example_waypoint 0; example_waypoint 1].
Definition first_route : Lane.t := Lane.mk Header.new [0].
Definition second_route : Lane.t := Lane.mk Header.new [1].

(** ** Python primitives: basic facts *)

Lemma py_min_Rmin (a b : R) : py_min a b = Rmin a b.
Proof.
  unfold py_min, Rmin.
  destruct (Rlt_dec b a), (Rle_dec a b); try reflexivity; lra.
Qed.

Lemma py_max_Zmax (a b : Z) : py_max a b = Z.max a b.
Proof. unfold py_max. destruct (Z.ltb_spec a b); lia. Qed.

Lemma py_sqrt_nonneg (x : R) : (0 <= x)%R -> py_sqrt x = Some (sqrt x).
Proof.
  intros Hx. unfold py_sqrt. destruct (Rlt_dec x 0); [lra | reflexivity].
Qed.

Lemma py_index_nonneg {A : Type} (l : list A) (i : Z) :
  (0 <= i)%Z -> py_index l i = l !! Z.to_nat i.
Proof.
  intros Hi. unfold py_index. destruct (Z.ltb_spec i 0); [lia | reflexivity].
Qed.

Lemma py_index_is_Some {A : Type} (l : list A) (i : Z) :
  is_Some (py_index l i)
  <-> (- Z.of_nat (length l) <= i < Z.of_nat (length l))%Z.
Proof.
  unfold py_index.
  destruct (Z.ltb_spec i 0).
  - destruct (Z.ltb_spec (i + Z.of_nat (length l)) 0).
    + split; [intros [? ?]; discriminate | lia].
    + rewrite lookup_lt_is_Some. lia.
  - rewrite lookup_lt_is_Some. lia.
Qed.

Lemma py_slice_take_drop {A : Type} (l : list A) (a n : Z) :
  (0 <= a)%Z -> (0 <= n)%Z ->
  py_slice l a (a + n) = take (Z.to_nat n) (drop (Z.to_nat a) l).
Proof.
  intros Ha Hn. unfold py_slice, py_slice_bound.
  destruct (Z.ltb_spec a 0); [lia |].
  destruct (Z.ltb_spec (a + n) 0); [lia |].
  destruct (Z_lt_le_dec a (Z.of_nat (length l))) as [Hlt | Hge].
  - rewrite (Z.min_l a) by lia.
    destruct (Z_le_gt_dec (a + n) (Z.of_nat (length l))).
    + rewrite Z.min_l by lia. f_equal. lia.
    + rewrite Z.min_r by lia.
      rewrite !take_ge; [reflexivity | rewrite length_drop; lia ..].
  - rewrite !Z.min_r by lia. rewrite Z.sub_diag. simpl.
    rewrite !drop_ge by lia. by destruct (Z.to_nat n).
Qed.

Lemma refs_ok_lookup (h : Heap) (ws : list loc) (l : loc) :
  refs_ok h ws -> l ∈ ws -> is_Some (h !! l).
Proof.
  intros Hok Hin. unfold refs_ok in Hok. rewrite Forall_forall in Hok.
  apply lookup_lt_is_Some_2, Hok, Hin.
Qed.

Lemma py_index_elem_of {A : Type} (l : list A) (i : Z) (x : A) :
  py_index l i = Some x -> x ∈ l.
Proof.
  unfold py_index. intros Hx.
  destruct (i <? 0)%Z; [destruct (i + Z.of_nat (length l) <? 0)%Z; [done |] |];
    by eapply list_elem_of_lookup_2.
Qed.

Lemma refs_ok_lookup_at (h : Heap) (ws : list loc) (j : nat) (l : loc) :
  refs_ok h ws -> ws !! j = Some l -> exists w, h !! l = Some w.
Proof.
  intros Hok Hl. apply (refs_ok_lookup h ws l Hok).
  by eapply list_elem_of_lookup_2.
Qed.

(** ** The chain distance *)

Lemma sum_squares_nonneg (a b c : R) : (0 <= a ^ 2 + b ^ 2 + c ^ 2)%R.
Proof. nra. Qed.

Lemma dl_euclid (a b : Point.t) : dl a b = Some (euclid a b).
Proof. unfold dl, euclid. apply py_sqrt_nonneg, sum_squares_nonneg. Qed.

Lemma euclid_nonneg (a b : Point.t) : (0 <= euclid a b)%R.
Proof. unfold euclid. apply sqrt_pos. Qed.

Lemma euclid_refl (a : Point.t) : euclid a a = 0%R.
Proof.
  unfold euclid.
  replace ((Point.x a - Point.x a) ^ 2 + (Point.y a - Point.y a) ^ 2
           + (Point.z a - Point.z a) ^ 2)%R with 0%R by ring.
  apply sqrt_0.
Qed.

Lemma chain_from_nonneg (pos : Z -> Point.t) (n : nat) (k : Z) :
  (0 <= chain_from pos n k)%R.
Proof.
  revert k. induction n as [| n IH]; intros k; simpl; [lra |].
  pose proof (euclid_nonneg (pos k) (pos (k + 1)%Z)).
  specialize (IH (k + 1)%Z). lra.
Qed.

Lemma chain_distance_nonneg (pos : Z -> Point.t) (a b : Z) :
  (0 <= chain_distance pos a b)%R.
Proof. apply chain_from_nonneg. Qed.

Lemma chain_distance_empty (pos : Z -> Point.t) (a b : Z) :
  (b <= a)%Z -> chain_distance pos a b = 0%R.
Proof.
  intros Hba. unfold chain_distance.
  replace (Z.to_nat (b - a)) with 0%nat by lia. reflexivity.
Qed.

Lemma position_at_pos_of (h : Heap) (ws : list loc) (i : Z) (p : Point.t) :
  position_at h ws i = Some p -> pos_of h ws i = p.
Proof. intros Hp. unfold pos_of. by rewrite Hp. Qed.

Lemma position_at_is_Some (h : Heap) (ws : list loc) (i : Z) :
  refs_ok h ws ->
  (- Z.of_nat (length ws) <= i < Z.of_nat (length ws))%Z ->
  is_Some (position_at h ws i).
Proof.
  intros Hok Hi. unfold position_at.
  destruct (proj2 (py_index_is_Some ws i) Hi) as [l Hl]. rewrite Hl. simpl.
  destruct (refs_ok_lookup h ws l Hok (py_index_elem_of ws i l Hl)) as [w Hw].
  rewrite Hw. by eexists.
Qed.

Lemma distance_loop_S (h : Heap) (ws : list loc) (n : nat) (i wp1 : Z)
    (dist : R) :
  distance_loop h ws (S n) i wp1 dist
  = (a ← position_at h ws wp1; b ← position_at h ws i; d ← dl a b;
     distance_loop h ws n (i + 1)%Z i (dist + d)%R).
Proof. reflexivity. Qed.

(** The loop of [distance], from any state: the first step measures from
    the anchor [wp1] to [i], every later step between neighbours. *)
Lemma distance_loop_chain (h : Heap) (ws : list loc) (n : nat) :
  forall (i wp1 : Z) (dist : R),
    is_Some (position_at h ws wp1) ->
    (forall k, (i <= k < i + Z.of_nat (S n))%Z ->
               is_Some (position_at h ws k)) ->
    distance_loop h ws (S n) i wp1 dist
    = Some (dist + (euclid (pos_of h ws wp1) (pos_of h ws i)
                    + chain_from (pos_of h ws) n i))%R.
Proof.
  induction n as [| n IH]; intros i wp1 dist [a Ha] Hall.
  - destruct (Hall i) as [b Hb]; [lia |].
    simpl. rewrite Ha, Hb. simpl. rewrite dl_euclid. simpl.
    rewrite (position_at_pos_of _ _ _ _ Ha), (position_at_pos_of _ _ _ _ Hb).
    f_equal. lra.
  - destruct (Hall i) as [b Hb]; [lia |].
    rewrite distance_loop_S, Ha, Hb. cbn -[distance_loop].
    rewrite dl_euclid. cbn -[distance_loop].
    rewrite IH.
    + rewrite (position_at_pos_of _ _ _ _ Ha), (position_at_pos_of _ _ _ _ Hb).
      f_equal. simpl. lra.
    + by eexists.
    + intros k Hk. apply Hall. lia.
Qed.

Lemma distance_empty_range (h : Heap) (ws : list loc) (a b : Z) :
  (b < a)%Z -> distance h ws a b = Some 0%R.
Proof.
  intros Hba. unfold distance.
  replace (Z.to_nat (b + 1 - a)) with 0%nat by lia. reflexivity.
Qed.

Lemma distance_chain (h : Heap) (ws : list loc) (a b : Z) :
  (a <= b)%Z ->
  (forall k, (a <= k <= b)%Z -> is_Some (position_at h ws k)) ->
  distance h ws a b = Some (chain_distance (pos_of h ws) a b).
Proof.
  intros Hab Hall. unfold distance, chain_distance.
  replace (Z.to_nat (b + 1 - a)) with (S (Z.to_nat (b - a))) by lia.
  rewrite distance_loop_chain.
  - rewrite euclid_refl. f_equal. lra.
  - apply Hall. lia.
  - intros k Hk. apply Hall. lia.
Qed.

(** ** The store during [decelerate_waypoints] *)

(** Objects allocated later do not change what the base waypoints read. *)
Lemma position_at_app (h ext : Heap) (ws : list loc) (k : Z) :
  refs_ok h ws -> position_at (h ++ ext) ws k = position_at h ws k.
Proof.
  intros Hok. unfold position_at.
  destruct (py_index ws k) as [l |] eqn:Hl; [| reflexivity]. simpl.
  apply py_index_elem_of in Hl.
  destruct (refs_ok_lookup h ws l Hok Hl) as [w Hw].
  by rewrite (lookup_app_l_Some _ _ _ _ Hw), Hw.
Qed.

Lemma distance_loop_app (h ext : Heap) (ws : list loc) (n : nat) :
  refs_ok h ws ->
  forall (i wp1 : Z) (dist : R),
    distance_loop (h ++ ext) ws n i wp1 dist = distance_loop h ws n i wp1 dist.
Proof.
  intros Hok. induction n as [| n IH]; intros i wp1 dist; [reflexivity |].
  rewrite !distance_loop_S, !position_at_app by done.
  destruct (position_at h ws wp1); [| reflexivity].
  destruct (position_at h ws i); [| reflexivity].
  cbn -[distance_loop]. destruct (dl _ _); [| reflexivity].
  cbn -[distance_loop]. apply IH.
Qed.

Lemma distance_app (h ext : Heap) (ws : list loc) (a b : Z) :
  refs_ok h ws -> distance (h ++ ext) ws a b = distance h ws a b.
Proof. intros Hok. unfold distance. by apply distance_loop_app. Qed.

(** The loop of [distance] raises as soon as one index of its range has
    no waypoint. *)
Lemma distance_loop_None (h : Heap) (ws : list loc) (n : nat) :
  forall (i wp1 : Z) (dist : R) (k : Z),
    (i <= k < i + Z.of_nat n)%Z -> position_at h ws k = None ->
    distance_loop h ws n i wp1 dist = None.
Proof.
  induction n as [| n IH]; intros i wp1 dist k Hk Hnone; [lia |].
  rewrite distance_loop_S.
  destruct (position_at h ws wp1); [| reflexivity].
  destruct (Z.eq_dec k i) as [-> | Hne].
  - by rewrite Hnone.
  - destruct (position_at h ws i); [| reflexivity].
    cbn -[distance_loop]. destruct (dl _ _); [| reflexivity].
    cbn -[distance_loop]. apply (IH _ _ _ k); [lia | done].
Qed.

Lemma distance_nonneg (h : Heap) (ws : list loc) (a b : Z) (d : R) :
  refs_ok h ws -> (0 <= a)%Z -> distance h ws a b = Some d -> (0 <= d)%R.
Proof.
  intros Hok Ha Hd.
  destruct (Z_lt_le_dec b a) as [Hlt | Hle].
  - rewrite distance_empty_range in Hd by done. injection Hd as <-. lra.
  - destruct (Z_lt_le_dec b (Z.of_nat (length ws))) as [Hb | Hb].
    + rewrite distance_chain in Hd; [| done |].
      * injection Hd as <-. apply chain_distance_nonneg.
      * intros k Hk. apply position_at_is_Some; [done | lia].
    + unfold distance in Hd.
      rewrite (distance_loop_None _ _ _ _ _ _ (Z.max a (Z.of_nat (length ws))))
        in Hd; [done | lia |].
      unfold position_at. rewrite py_index_nonneg by lia.
      rewrite lookup_ge_None_2; [done | lia].
Qed.

Lemma insert_last (h : Heap) (w w' : Waypoint.t) :
  <[length h := w']> (h ++ [w]) = h ++ [w'].
Proof.
  rewrite insert_app_r_alt by lia. by rewrite Nat.sub_diag.
Qed.

Lemma lookup_last (h : Heap) (w : Waypoint.t) : (h ++ [w]) !! length h = Some w.
Proof. rewrite lookup_app_r by lia. by rewrite Nat.sub_diag. Qed.

(** One iteration, on a store that extends the one the base waypoints
    live in. *)
Lemma decelerate_step_eq (self : WaypointUpdater) (ws : list loc) (c i : Z)
    (wp : loc) (h ext : Heap) (w : Waypoint.t) :
  refs_ok h ws -> h !! wp = Some w ->
  decelerate_step self ws c i wp (h ++ ext)
  = (dist ← distance h ws i (stop_offset (stopline_wp_index self) c);
     s ← py_sqrt (2 * MAX_DECEL * dist)%R;
     let vel := (s + IZR i * CONSTANT_DECEL pyv)%R in
     let vel := if Rlt_dec vel 1 then 0%R else vel in
     Some (length (h ++ ext),
           (h ++ ext) ++ [decelerated w (py_min vel (Waypoint.linear_x w))])).
Proof.
  intros Hok Hw. unfold decelerate_step, heap_alloc, heap_update.
  assert (Hw' : forall x, ((h ++ ext) ++ [x]) !! wp = Some w).
  { intros x. rewrite <- (assoc_L (++)). by apply lookup_app_l_Some. }
  rewrite Hw'. cbn -[distance]. rewrite lookup_last. cbn -[distance].
  rewrite insert_last, py_max_Zmax.
  fold (stop_offset (stopline_wp_index self) c).
  rewrite <- (assoc_L (++)), distance_app by done.
  destruct (distance h ws i _) as [dist |]; [| reflexivity]. cbn.
  destruct (py_sqrt _) as [s |]; [| reflexivity]. cbn.
  rewrite (assoc_L (++)), Hw'. cbn. rewrite lookup_last. cbn.
  by rewrite insert_last.
Qed.

Lemma MAX_DECEL_pos : (0 < MAX_DECEL)%R.
Proof. unfold MAX_DECEL. lra. Qed.

Lemma decelerate_step_ok (self : WaypointUpdater) (ws : list loc) (c i : Z)
    (wp : loc) (h ext : Heap) (w : Waypoint.t) :
  let so := stop_offset (stopline_wp_index self) c in
  refs_ok h ws -> h !! wp = Some w -> (0 <= i)%Z ->
  (so < Z.of_nat (length ws))%Z ->
  decelerate_step self ws c i wp (h ++ ext)
  = Some (length (h ++ ext),
          (h ++ ext)
          ++ [decelerated w
                (Rmin (profile_velocity (chain_distance (pos_of h ws) i so) i)
                      (Waypoint.linear_x w))]).
Proof.
  intros so Hok Hw Hi Hso. rewrite (decelerate_step_eq _ _ _ _ _ _ _ w) by done.
  fold so.
  assert (Hd : distance h ws i so = Some (chain_distance (pos_of h ws) i so)).
  { destruct (Z_lt_le_dec so i) as [Hlt | Hle].
    - rewrite distance_empty_range, chain_distance_empty by lia. reflexivity.
    - apply distance_chain; [done |].
      intros k Hk. apply position_at_is_Some; [done | lia]. }
  rewrite Hd. cbn.
  rewrite py_sqrt_nonneg.
  - cbn. rewrite py_min_Rmin. reflexivity.
  - pose proof (chain_distance_nonneg (pos_of h ws) i so).
    pose proof MAX_DECEL_pos. nra.
Qed.

Lemma decelerate_loop_ok (self : WaypointUpdater) (ws : list loc) (c : Z)
    (h : Heap) :
  let so := stop_offset (stopline_wp_index self) c in
  refs_ok h ws -> (so < Z.of_nat (length ws))%Z ->
  forall (rest : list loc) (i : Z) (res : list loc) (ext : Heap),
    refs_ok h rest -> (0 <= i)%Z ->
    decelerate_loop self ws c rest i res (h ++ ext)
    = Some (res ++ seq (length (h ++ ext)) (length rest),
            (h ++ ext) ++ profile_outputs h ws so rest i).
Proof.
  intros so Hok Hso rest.
  induction rest as [| wp rest IH]; intros i res ext Hrest Hi.
  - simpl. by rewrite !app_nil_r.
  - apply Forall_cons in Hrest as [Hwp Hrest].
    destruct (lookup_lt_is_Some_2 h wp Hwp) as [w Hw].
    cbn [decelerate_loop].
    rewrite (decelerate_step_ok _ _ _ _ _ _ _ w) by done.
    cbn -[decelerate_loop profile_outputs].
    rewrite <- (assoc_L (++) h), IH by (done || lia).
    cbn [profile_outputs length seq]. rewrite Hw. cbn [default].
    rewrite !length_app. cbn [length].
    rewrite <- !(assoc_L (++)). cbn [app].
    repeat f_equal. lia.
Qed.

(** [decelerate_waypoints] returns when the stop offset is an index of
    the slice: it leaves the objects of the store as they are, appends one
    new object per base waypoint and returns the new references in
    order. *)
Lemma decelerate_waypoints_ok (self : WaypointUpdater) (ws : list loc) (c : Z)
    (h : Heap) :
  let so := stop_offset (stopline_wp_index self) c in
  refs_ok h ws -> (ws <> [] -> (so < Z.of_nat (length ws))%Z) ->
  decelerate_waypoints self ws c h
  = Some (seq (length h) (length ws), h ++ profile_outputs h ws so ws 0).
Proof.
  intros so Hok Hso. unfold decelerate_waypoints.
  destruct ws as [| wp ws]; [by rewrite app_nil_r |].
  pose proof (decelerate_loop_ok self (wp :: ws) c h Hok (Hso ltac:(done))
                (wp :: ws) 0%Z [] [] Hok ltac:(lia)) as Hloop.
  rewrite app_nil_r in Hloop. exact Hloop.
Qed.

(** With a stop offset beyond the slice the first call of [distance]
    walks off the end of the list: an [IndexError]. *)
Lemma decelerate_waypoints_raises (self : WaypointUpdater) (ws : list loc)
    (c : Z) (h : Heap) :
  refs_ok h ws -> ws <> [] ->
  (Z.of_nat (length ws) <= stop_offset (stopline_wp_index self) c)%Z ->
  decelerate_waypoints self ws c h = None.
Proof.
  intros Hok Hne Hso. unfold decelerate_waypoints.
  destruct ws as [| wp ws]; [done |].
  apply Forall_cons in Hok as Hok'. destruct Hok' as [Hwp _].
  destruct (lookup_lt_is_Some_2 h wp Hwp) as [w Hw].
  cbn [decelerate_loop].
  rewrite <- (app_nil_r h), (decelerate_step_eq _ _ _ _ _ _ _ w) by done.
  unfold distance.
  rewrite (distance_loop_None _ _ _ _ _ _ (Z.of_nat (length (wp :: ws)))).
  - reflexivity.
  - lia.
  - unfold position_at. rewrite py_index_nonneg by lia.
    rewrite lookup_ge_None_2; [done | lia].
Qed.

(** The converse: a window came back, so the stop offset was an index of
    the slice, and the window is the one described above. *)
Lemma decelerate_waypoints_inv (self : WaypointUpdater) (ws : list loc) (c : Z)
    (h : Heap) (res : list loc) (h' : Heap) :
  let so := stop_offset (stopline_wp_index self) c in
  refs_ok h ws ->
  decelerate_waypoints self ws c h = Some (res, h') ->
  (ws <> [] -> (so < Z.of_nat (length ws))%Z)
  /\ res = seq (length h) (length ws)
  /\ h' = h ++ profile_outputs h ws so ws 0.
Proof.
  intros so Hok Hrun.
  assert (Hso : ws <> [] -> (so < Z.of_nat (length ws))%Z).
  { intros Hne. destruct (Z_lt_le_dec so (Z.of_nat (length ws))); [done |].
    rewrite decelerate_waypoints_raises in Hrun; done. }
  rewrite decelerate_waypoints_ok in Hrun by done.
  injection Hrun as <- <-. done.
Qed.

Lemma linear_x_decelerated (w : Waypoint.t) (v : R) :
  Waypoint.linear_x (decelerated w v) = v.
Proof. reflexivity. Qed.

Lemma pose_decelerated (w : Waypoint.t) (v : R) :
  Waypoint.pose (decelerated w v) = Waypoint.pose w.
Proof. reflexivity. Qed.

Lemma profile_outputs_length (h : Heap) (ws : list loc) (so : Z)
    (rest : list loc) (i : Z) :
  length (profile_outputs h ws so rest i) = length rest.
Proof.
  revert i. induction rest as [| wp rest IH]; intros i; simpl; [done |].
  by rewrite IH.
Qed.

Lemma profile_outputs_lookup (h : Heap) (ws : list loc) (so : Z)
    (rest : list loc) (i : Z) (j : nat) (wp : loc) (w : Waypoint.t) :
  rest !! j = Some wp -> h !! wp = Some w ->
  profile_outputs h ws so rest i !! j
  = Some (decelerated w
            (Rmin (profile_velocity
                     (chain_distance (pos_of h ws) (i + Z.of_nat j) so)
                     (i + Z.of_nat j))
                  (Waypoint.linear_x w))).
Proof.
  revert i j. induction rest as [| wp' rest IH]; intros i j Hj Hw; [done |].
  destruct j as [| j].
  - injection Hj as ->. cbn [profile_outputs]. rewrite Hw. cbn.
    by rewrite Z.add_0_r.
  - simpl in Hj. cbn [profile_outputs]. simpl.
    rewrite (IH (i + 1)%Z j) by done.
    by replace (i + 1 + Z.of_nat j)%Z with (i + Z.of_nat (S j))%Z by lia.
Qed.

(** The object behind position [j] of a window of [decelerate_waypoints]. *)
Lemma decelerate_waypoints_lookup (self : WaypointUpdater) (ws : list loc)
    (c : Z) (h : Heap) (res : list loc) (h' : Heap) (j : nat) (wp : loc)
    (w : Waypoint.t) :
  let so := stop_offset (stopline_wp_index self) c in
  refs_ok h ws ->
  decelerate_waypoints self ws c h = Some (res, h') ->
  ws !! j = Some wp -> h !! wp = Some w ->
  res !! j = Some (length h + j)
  /\ h' !! (length h + j)
     = Some (decelerated w
               (Rmin (profile_velocity
                        (chain_distance (pos_of h ws) (Z.of_nat j) so)
                        (Z.of_nat j))
                     (Waypoint.linear_x w))).
Proof.
  intros so Hok Hrun Hj Hw.
  destruct (decelerate_waypoints_inv _ _ _ _ _ _ Hok Hrun) as (_ & -> & ->).
  split.
  - apply lookup_seq. split; [done |]. by eapply lookup_lt_Some.
  - rewrite lookup_app_r by lia.
    replace (length h + j - length h) with j by lia.
    by rewrite (profile_outputs_lookup _ _ _ _ _ _ wp w).
Qed.

(** ** The slice and the two branches of [generate_lane] *)

Lemma py_slice_length_le {A : Type} (l : list A) (a n : Z) :
  (0 <= n)%Z -> (Z.of_nat (length (py_slice l a (a + n))) <= n)%Z.
Proof.
  intros Hn. unfold py_slice, py_slice_bound. rewrite length_take.
  destruct (Z.ltb_spec a 0), (Z.ltb_spec (a + n) 0); lia.
Qed.

Lemma py_slice_elem_of {A : Type} (l : list A) (a b : Z) (x : A) :
  x ∈ py_slice l a b -> x ∈ l.
Proof.
  unfold py_slice. intros Hx.
  apply (subseteq_drop (Z.to_nat (py_slice_bound (Z.of_nat (length l)) a)) l).
  by eapply subseteq_take.
Qed.

Lemma refs_ok_slice (h : Heap) (l : list loc) (a b : Z) :
  refs_ok h l -> refs_ok h (py_slice l a b).
Proof.
  unfold refs_ok. rewrite !Forall_forall. intros Hok x Hx.
  by eapply Hok, py_slice_elem_of.
Qed.

(** The test of [generate_lane]: pass the slice through, or decelerate. *)
Lemma branch_dec (self : WaypointUpdater) (c : Z) :
  {(stopline_wp_index self = -1
    \/ c + LOOKAHEAD_WPS <= stopline_wp_index self)%Z}
  + {(stopline_wp_index self <> -1
      /\ stopline_wp_index self < c + LOOKAHEAD_WPS)%Z}.
Proof.
  destruct (Z.eq_dec (stopline_wp_index self) (-1)%Z); [by left; left |].
  destruct (Z_le_gt_dec (c + LOOKAHEAD_WPS) (stopline_wp_index self));
    [by left; right | right; lia].
Qed.

Lemma generate_lane_pass_through (self : WaypointUpdater) (h : Heap) (c : Z)
    (bl : Lane.t) :
  get_closest_waypoint_index self = Some c -> base_lane self = Some bl ->
  (stopline_wp_index self = -1
   \/ c + LOOKAHEAD_WPS <= stopline_wp_index self)%Z ->
  generate_lane self h
  = Some (Lane.set_waypoints Lane.new
            (py_slice (Lane.waypoints bl) c (c + LOOKAHEAD_WPS)), h).
Proof.
  intros Hc Hbl Hstop. unfold generate_lane. rewrite Hc, Hbl. cbn.
  destruct (Z.eqb_spec (stopline_wp_index self) (-1)); [done |].
  destruct (Z.leb_spec (c + LOOKAHEAD_WPS) (stopline_wp_index self));
    [done | lia].
Qed.

Lemma generate_lane_decelerate (self : WaypointUpdater) (h : Heap) (c : Z)
    (bl : Lane.t) :
  get_closest_waypoint_index self = Some c -> base_lane self = Some bl ->
  (stopline_wp_index self <> -1)%Z ->
  (stopline_wp_index self < c + LOOKAHEAD_WPS)%Z ->
  generate_lane self h
  = ('(res, h') ← decelerate_waypoints self
                    (py_slice (Lane.waypoints bl) c (c + LOOKAHEAD_WPS)) c h;
     Some (Lane.set_waypoints Lane.new res, h')).
Proof.
  intros Hc Hbl Hne Hlt. unfold generate_lane. rewrite Hc, Hbl. cbn.
  destruct (Z.eqb_spec (stopline_wp_index self) (-1)); [done |].
  destruct (Z.leb_spec (c + LOOKAHEAD_WPS) (stopline_wp_index self));
    [lia | done].
Qed.

(** ** The constants of the profile *)

Lemma CONSTANT_DECEL_value :
  CONSTANT_DECEL pyv = match pyv with Py2 => 0%R | Py3 => (1 / 100)%R end.
Proof. unfold CONSTANT_DECEL, py_int_div, LOOKAHEAD_WPS. by destruct pyv. Qed.

Lemma CONSTANT_DECEL_bounds : (0 <= CONSTANT_DECEL pyv <= 1 / 100)%R.
Proof. rewrite CONSTANT_DECEL_value. destruct pyv; lra. Qed.

(** At distance [0] the velocity is only the bias [i * CONSTANT_DECEL],
    which stays under the creep threshold inside a window. *)
Lemma profile_velocity_at_stop (i : Z) :
  (0 <= i < LOOKAHEAD_WPS)%Z -> profile_velocity 0 i = 0%R.
Proof.
  intros [Hlo Hhi]. unfold profile_velocity, LOOKAHEAD_WPS in *.
  rewrite Rmult_0_r, sqrt_0.
  destruct (Rlt_dec _ _) as [_ | Hge]; [reflexivity |]. exfalso. apply Hge.
  pose proof CONSTANT_DECEL_bounds as [Hc0 Hc1].
  apply IZR_le in Hlo. assert (Hi : (IZR i <= 99)%R) by (apply IZR_le; lia).
  nra.
Qed.

Lemma velocity_of_decelerated (h : Heap) (p : loc) (w : Waypoint.t) (v : R) :
  h !! p = Some (decelerated w v) -> get_waypoint_velocity h p = Some v.
Proof. intros Hp. unfold get_waypoint_velocity. by rewrite Hp. Qed.

(** [generate_lane] returns in the pass-through branch, on an empty
    slice, and in the deceleration branch when the stop offset is an index
    of the slice. *)
Lemma generate_lane_returns (self : WaypointUpdater) (h : Heap) (c : Z)
    (bl : Lane.t) :
  let ws := py_slice (Lane.waypoints bl) c (c + LOOKAHEAD_WPS) in
  get_closest_waypoint_index self = Some c -> base_lane self = Some bl ->
  refs_ok h (Lane.waypoints bl) ->
  (stopline_wp_index self = -1 \/ c + LOOKAHEAD_WPS <= stopline_wp_index self
   \/ ws = []
   \/ stop_offset (stopline_wp_index self) c < Z.of_nat (length ws))%Z ->
  exists lane h', generate_lane self h = Some (lane, h').
Proof.
  intros ws Hc Hbl Hok Hcase.
  destruct (branch_dec self c) as [Hpass | [Hne Hlt]].
  { rewrite (generate_lane_pass_through _ _ c bl) by done. eauto. }
  rewrite (generate_lane_decelerate _ _ c bl) by done. fold ws.
  rewrite decelerate_waypoints_ok.
  - cbn. eauto.
  - by apply refs_ok_slice.
  - intros Hne'.
    destruct Hcase as [? | [? | [? | ?]]]; [done | lia | done | done].
Qed.

(** What a window of the deceleration branch looks like. *)
Lemma generate_lane_decelerate_inv (self : WaypointUpdater) (h : Heap) (c : Z)
    (bl : Lane.t) (lane : Lane.t) (h' : Heap) :
  let ws := py_slice (Lane.waypoints bl) c (c + LOOKAHEAD_WPS) in
  let so := stop_offset (stopline_wp_index self) c in
  get_closest_waypoint_index self = Some c -> base_lane self = Some bl ->
  refs_ok h (Lane.waypoints bl) ->
  (stopline_wp_index self <> -1)%Z ->
  (stopline_wp_index self < c + LOOKAHEAD_WPS)%Z ->
  generate_lane self h = Some (lane, h') ->
  decelerate_waypoints self ws c h = Some (Lane.waypoints lane, h')
  /\ (ws <> [] -> (so < Z.of_nat (length ws))%Z)
  /\ Lane.waypoints lane = seq (length h) (length ws)
  /\ h' = h ++ profile_outputs h ws so ws 0.
Proof.
  intros ws so Hc Hbl Hok Hne Hlt Hrun.
  rewrite (generate_lane_decelerate _ _ c bl) in Hrun by done. fold ws in Hrun.
  destruct (decelerate_waypoints self ws c h) as [[res h''] |] eqn:Hdec;
    [| done].
  cbn in Hrun. injection Hrun as <- <-. cbn [Lane.set_waypoints Lane.waypoints].
  split; [done |].
  apply (decelerate_waypoints_inv self ws c h res h''); [| done].
  by apply refs_ok_slice.
Qed.

(** A window of either branch, position by position: the waypoint at
    position [j] has the pose of the base waypoint at position [j] of the
    slice and a speed that is not larger. *)
Lemma generate_lane_window (self : WaypointUpdater) (h : Heap) (c : Z)
    (bl : Lane.t) (lane : Lane.t) (h' : Heap) :
  let ws := py_slice (Lane.waypoints bl) c (c + LOOKAHEAD_WPS) in
  get_closest_waypoint_index self = Some c ->
  base_lane self = Some bl ->
  refs_ok h (Lane.waypoints bl) ->
  generate_lane self h = Some (lane, h') ->
  length (Lane.waypoints lane) = length ws
  /\ forall (j : nat) (p : loc),
       Lane.waypoints lane !! j = Some p ->
       exists l w w',
         ws !! j = Some l /\ h !! l = Some w /\ h' !! p = Some w'
         /\ Waypoint.pose w' = Waypoint.pose w
         /\ (Waypoint.linear_x w' <= Waypoint.linear_x w)%R.
Proof.
  intros ws Hc Hbl Hok Hrun.
  assert (Hok' : refs_ok h ws) by (by apply refs_ok_slice).
  destruct (branch_dec self c) as [Hpass | [Hne Hlt]].
  { rewrite (generate_lane_pass_through _ _ c bl) in Hrun by done.
    injection Hrun as <- <-. cbn [Lane.set_waypoints Lane.waypoints]. fold ws.
    split; [done |]. intros j p Hp.
    destruct (refs_ok_lookup_at h ws j p Hok' Hp) as [w Hw].
    exists p, w, w. repeat split; done || lra. }
  destruct (generate_lane_decelerate_inv _ _ _ _ _ _ Hc Hbl Hok Hne Hlt Hrun)
    as (Hdec & _ & Hres & _).
  fold ws in Hdec, Hres. split; [by rewrite Hres, length_seq |].
  intros j p Hp.
  assert (Hj : j < length ws).
  { apply lookup_lt_Some in Hp. by rewrite Hres, length_seq in Hp. }
  destruct (lookup_lt_is_Some_2 ws j Hj) as [l Hl].
  destruct (refs_ok_lookup_at h ws j l Hok' Hl) as [w Hw].
  destruct (decelerate_waypoints_lookup _ _ _ _ _ _ j l w Hok' Hdec Hl Hw)
    as [Hres' Hobj].
  assert (p = length h + j) as -> by congruence.
  eexists l, w, _. split; [done |]. split; [done |]. split; [exact Hobj |].
  split; [reflexivity |]. rewrite linear_x_decelerated. apply Rmin_r.
Qed.

(** A tick that returns a window found a closest index and a route. *)
Lemma generate_lane_inputs (self : WaypointUpdater) (h : Heap) (lane : Lane.t)
    (h' : Heap) :
  generate_lane self h = Some (lane, h') ->
  exists c bl, get_closest_waypoint_index self = Some c
               /\ base_lane self = Some bl.
Proof.
  unfold generate_lane. intros Hrun.
  destruct (get_closest_waypoint_index self) as [c |]; [| done].
  destruct (base_lane self) as [bl |]; [| done]. eauto.
Qed.

(** A turn of the loop either skips the tick or publishes the lane of
    [generate_lane]. *)
Lemma loop_body_inv (self : WaypointUpdater) (h : Heap) (out : option Lane.t)
    (h' : Heap) :
  loop_body self h = Some (out, h') ->
  (out = None /\ h' = h)
  \/ (exists lane, out = Some lane /\ generate_lane self h = Some (lane, h')).
Proof.
  unfold loop_body, publish_waypoints. intros Hrun.
  destruct (truthy_msg (pose self) && truthy_msg (base_lane self)).
  - destruct (generate_lane self h) as [[lane h''] |]; [| done].
    cbn in Hrun. injection Hrun as <- <-. right. by exists lane.
  - injection Hrun as <- <-. by left.
Qed.

(** A tick only allocates: the store after it extends the store before
    it. *)
Lemma generate_lane_extends (self : WaypointUpdater) (h : Heap) (lane : Lane.t)
    (h' : Heap) :
  (forall bl, base_lane self = Some bl -> refs_ok h (Lane.waypoints bl)) ->
  generate_lane self h = Some (lane, h') ->
  exists ext, h' = h ++ ext.
Proof.
  intros Hok Hgen.
  destruct (generate_lane_inputs _ _ _ _ Hgen) as (c & bl & Hc & Hbl).
  destruct (branch_dec self c) as [Hpass | [Hne Hlt]].
  - rewrite (generate_lane_pass_through _ _ c bl) in Hgen by done.
    injection Hgen as <- <-. exists []. by rewrite app_nil_r.
  - destruct (generate_lane_decelerate_inv _ _ _ _ _ _ Hc Hbl (Hok bl Hbl)
                Hne Hlt Hgen) as (_ & _ & _ & Hh').
    by eexists.
Qed.

Lemma loop_body_extends (self : WaypointUpdater) (h : Heap)
    (out : option Lane.t) (h' : Heap) :
  (forall bl, base_lane self = Some bl -> refs_ok h (Lane.waypoints bl)) ->
  loop_body self h = Some (out, h') ->
  exists ext, h' = h ++ ext.
Proof.
  intros Hok Hrun.
  destruct (loop_body_inv _ _ _ _ Hrun) as [[_ ->] | (lane & _ & Hgen)].
  - exists []. by rewrite app_nil_r.
  - by apply (generate_lane_extends self h lane h').
Qed.

(** The slice taken at an index of the route: the waypoints from that
    index on, [LOOKAHEAD_WPS] of them if the route has as many left. *)
Lemma py_slice_lookahead {A : Type} (l : list A) (c : Z) :
  (0 <= c)%Z ->
  py_slice l c (c + LOOKAHEAD_WPS)
  = take (Z.to_nat LOOKAHEAD_WPS) (drop (Z.to_nat c) l).
Proof. intros Hc. by apply py_slice_take_drop. Qed.

(** A stop index that is an index of the route (the invariant of the
    stop signal) gives a stop offset inside the slice. *)
Lemma valid_stop_in_slice {A : Type} (route : list A) (c stop : Z) :
  (0 <= c < Z.of_nat (length route))%Z ->
  (stop < Z.of_nat (length route))%Z ->
  (stop < c + LOOKAHEAD_WPS)%Z ->
  (stop_offset stop c
   < Z.of_nat (length (py_slice route c (c + LOOKAHEAD_WPS))))%Z.
Proof.
  intros Hc Hstop Hlt. rewrite py_slice_lookahead by lia.
  rewrite length_take, length_drop.
  unfold stop_offset, STOP_LINE_MARGIN, LOOKAHEAD_WPS in *. lia.
Qed.

Lemma generate_lane_returns_valid_stop (self : WaypointUpdater) (h : Heap)
    (c : Z) (bl : Lane.t) :
  let L := Z.of_nat (length (Lane.waypoints bl)) in
  get_closest_waypoint_index self = Some c -> base_lane self = Some bl ->
  refs_ok h (Lane.waypoints bl) ->
  (0 <= c < L)%Z ->
  (stopline_wp_index self = -1 \/ stopline_wp_index self < L)%Z ->
  exists lane h', generate_lane self h = Some (lane, h').
Proof.
  intros L Hc Hbl Hok HcL Hstop.
  apply (generate_lane_returns self h c bl Hc Hbl Hok).
  destruct Hstop as [Hnone | Hvalid]; [by left |].
  destruct (Z_le_gt_dec (c + LOOKAHEAD_WPS) (stopline_wp_index self));
    [by right; left |].
  right; right; right. apply valid_stop_in_slice; [done | done | lia].
Qed.

(** ** The properties of the specification *)


(** Past the stop offset a window of the deceleration branch holds
    stopped waypoints. *)
Lemma window_stopped_from_offset (self : WaypointUpdater) (ws : list loc)
    (c : Z) (h : Heap) (res : list loc) (h' : Heap) (j : nat) :
  let so := stop_offset (stopline_wp_index self) c in
  refs_ok h ws -> (Z.of_nat (length ws) <= LOOKAHEAD_WPS)%Z ->
  (forall l v, l ∈ ws -> get_waypoint_velocity h l = Some v -> (0 <= v)%R) ->
  decelerate_waypoints self ws c h = Some (res, h') ->
  (so <= Z.of_nat j)%Z -> j < length ws ->
  exists p, res !! j = Some p /\ get_waypoint_velocity h' p = Some 0%R.
Proof.
  intros so Hok Hlen Hspeed Hrun Hso Hj.
  destruct (lookup_lt_is_Some_2 ws j Hj) as [wp Hwp].
  destruct (refs_ok_lookup_at h ws j wp Hok Hwp) as [w Hw].
  destruct (decelerate_waypoints_lookup _ _ _ _ _ _ j wp w Hok Hrun Hwp Hw)
    as [Hres Hobj].
  exists (length h + j). split; [done |].
  rewrite (velocity_of_decelerated _ _ _ _ Hobj). f_equal.
  fold so. rewrite chain_distance_empty by lia.
  rewrite profile_velocity_at_stop by lia.
  apply Rmin_left, (Hspeed wp); [by eapply list_elem_of_lookup_2 |].
  unfold get_waypoint_velocity. by rewrite Hw.
Qed.

(** C1 — stop convergence.  Take a tick whose base slice is not empty,
    with an active stop ([stopline_wp_index] is not [-1] and lies before
    [closest + LOOKAHEAD_WPS]) and base speeds that are not negative, and
    let [so = max(stopIndex - closest - MARGIN, 0)].  The tick returns a
    window whenever [so] is an index of the slice, and in every window it
    returns, the waypoint at local index [so] has speed [0.0], as has
    every waypoint at a local index from [so] on. *)
Theorem stop_convergence (self : WaypointUpdater) (h : Heap) (c : Z)
    (bl : Lane.t) :
  let ws := py_slice (Lane.waypoints bl) c (c + LOOKAHEAD_WPS) in
  let so := stop_offset (stopline_wp_index self) c in
  get_closest_waypoint_index self = Some c ->
  base_lane self = Some bl ->
  refs_ok h (Lane.waypoints bl) ->
  ws <> [] ->
  (stopline_wp_index self <> -1)%Z ->
  (stopline_wp_index self < c + LOOKAHEAD_WPS)%Z ->
  (forall l v, l ∈ ws -> get_waypoint_velocity h l = Some v -> (0 <= v)%R) ->
  ((so < Z.of_nat (length ws))%Z ->
   exists lane h', generate_lane self h = Some (lane, h'))
  /\ forall lane h',
       generate_lane self h = Some (lane, h') ->
       (exists p, Lane.waypoints lane !! Z.to_nat so = Some p
                  /\ get_waypoint_velocity h' p = Some 0%R)
       /\ (forall j p, (so <= Z.of_nat j)%Z ->
                       Lane.waypoints lane !! j = Some p ->
                       get_waypoint_velocity h' p = Some 0%R).
Proof.
  intros ws so Hc Hbl Hok Hne Hstop Hlt Hspeed. split.
  { intros Hso. apply (generate_lane_returns self h c bl); auto. }
  intros lane h' Hrun.
  destruct (generate_lane_decelerate_inv _ _ _ _ _ _ Hc Hbl Hok Hstop Hlt Hrun)
    as (Hdec & Hso & Hres & _).
  fold ws in Hdec, Hso, Hres. fold so in Hso. specialize (Hso Hne).
  assert (Hso0 : (0 <= so)%Z) by (unfold so, stop_offset; lia).
  assert (Hlen : (Z.of_nat (length ws) <= LOOKAHEAD_WPS)%Z)
    by (apply py_slice_length_le; done).
  assert (Hok' : refs_ok h ws) by (by apply refs_ok_slice).
  split.
  - apply (window_stopped_from_offset self ws c h _ h'); try done; lia.
  - intros j p Hj Hp.
    assert (Hjlen : j < length ws).
    { apply lookup_lt_Some in Hp. rewrite Hres, length_seq in Hp. done. }
    destruct (window_stopped_from_offset self ws c h _ h' j Hok' Hlen Hspeed
                Hdec Hj Hjlen) as (p' & Hp' & Hzero).
    congruence.
Qed.

(** C6 — the speed cap.  A tick returns a window in the pass-through
    branch and, in the deceleration branch, when the stop offset is an
    index of the slice; in every window it returns, from either branch,
    the waypoint at each position has a speed that is at most the speed of
    the base waypoint at the same position of the slice. *)
Theorem speed_cap (self : WaypointUpdater) (h : Heap) (c : Z) (bl : Lane.t) :
  let ws := py_slice (Lane.waypoints bl) c (c + LOOKAHEAD_WPS) in
  get_closest_waypoint_index self = Some c ->
  base_lane self = Some bl ->
  refs_ok h (Lane.waypoints bl) ->
  ((stopline_wp_index self = -1 \/ c + LOOKAHEAD_WPS <= stopline_wp_index self
    \/ ws = []
    \/ stop_offset (stopline_wp_index self) c < Z.of_nat (length ws))%Z ->
   exists lane h', generate_lane self h = Some (lane, h'))
  /\ forall lane h',
       generate_lane self h = Some (lane, h') ->
       length (Lane.waypoints lane) = length ws
       /\ forall (j : nat) (p : loc),
            Lane.waypoints lane !! j = Some p ->
            exists l v base,
              ws !! j = Some l
              /\ get_waypoint_velocity h' p = Some v
              /\ get_waypoint_velocity h l = Some base
              /\ (v <= base)%R.
Proof.
  intros ws Hc Hbl Hok. split.
  { by apply (generate_lane_returns self h c bl). }
  intros lane h' Hrun.
  destruct (generate_lane_window _ _ _ _ _ _ Hc Hbl Hok Hrun) as [Hlen Hwin].
  split; [done |]. intros j p Hp.
  destruct (Hwin j p Hp) as (l & w & w' & Hl & Hw & Hw' & _ & Hle).
  exists l, (Waypoint.linear_x w'), (Waypoint.linear_x w).
  unfold get_waypoint_velocity. by rewrite Hw, Hw'.
Qed.

(** C7 — pass-through.  When [stopline_wp_index] is [-1], or is at least
    [closest + LOOKAHEAD_WPS], the tick returns the slice
    [route[closest : closest + LOOKAHEAD_WPS]] itself, the same waypoint
    objects in the same order, and leaves the store as it is: the speeds of
    the window are those of the base route over the slice. *)
Theorem pass_through (self : WaypointUpdater) (h : Heap) (c : Z) (bl : Lane.t) :
  let ws := py_slice (Lane.waypoints bl) c (c + LOOKAHEAD_WPS) in
  get_closest_waypoint_index self = Some c ->
  base_lane self = Some bl ->
  (stopline_wp_index self = -1
   \/ stopline_wp_index self >= c + LOOKAHEAD_WPS)%Z ->
  exists lane,
    generate_lane self h = Some (lane, h)
    /\ Lane.waypoints lane = ws
    /\ get_waypoint_velocity h <$> Lane.waypoints lane
       = get_waypoint_velocity h <$> ws.
Proof.
  intros ws Hc Hbl Hstop.
  exists (Lane.set_waypoints Lane.new ws). split; [| done].
  apply generate_lane_pass_through; [done | done | lia].
Qed.

(** C5 — window bounding.  For a route of length [L] and a closest index
    [0 <= c < L], the tick returns a window whenever the stop index is [-1]
    or an index of the route, and every window it returns has at most
    [LOOKAHEAD_WPS] waypoints: exactly [LOOKAHEAD_WPS] when
    [c + LOOKAHEAD_WPS <= L] and [L - c] otherwise.  The waypoint at
    position [j] of the window is the one of route index [c + j], an index
    of the route: nothing wraps around and no route waypoint comes
    twice. *)
Theorem window_bounding (self : WaypointUpdater) (h : Heap) (c : Z)
    (bl : Lane.t) :
  let route := Lane.waypoints bl in
  let L := Z.of_nat (length route) in
  get_closest_waypoint_index self = Some c ->
  base_lane self = Some bl ->
  refs_ok h route ->
  (0 <= c < L)%Z ->
  ((stopline_wp_index self = -1 \/ stopline_wp_index self < L)%Z ->
   exists lane h', generate_lane self h = Some (lane, h'))
  /\ forall lane h',
       generate_lane self h = Some (lane, h') ->
       let window := Lane.waypoints lane in
       (Z.of_nat (length window) <= LOOKAHEAD_WPS)%Z
       /\ ((c + LOOKAHEAD_WPS <= L)%Z ->
           Z.of_nat (length window) = LOOKAHEAD_WPS)
       /\ ((L < c + LOOKAHEAD_WPS)%Z -> Z.of_nat (length window) = (L - c)%Z)
       /\ (forall (j : nat) (p : loc),
             window !! j = Some p ->
             (c + Z.of_nat j < L)%Z
             /\ exists l w w',
                  route !! (Z.to_nat c + j) = Some l
                  /\ h !! l = Some w /\ h' !! p = Some w'
                  /\ Waypoint.pose w' = Waypoint.pose w).
Proof.
  intros route L Hc Hbl Hok HcL. split.
  { by apply (generate_lane_returns_valid_stop self h c bl). }
  intros lane h' Hrun window.
  destruct (generate_lane_window _ _ _ _ _ _ Hc Hbl Hok Hrun) as [Hlen Hwin].
  fold route in Hlen, Hwin. fold window in Hlen, Hwin.
  rewrite py_slice_lookahead in Hlen, Hwin by lia.
  rewrite length_take, length_drop in Hlen.
  unfold LOOKAHEAD_WPS in *. fold route in Hlen.
  split; [lia |]. split; [lia |]. split; [lia |].
  intros j p Hp.
  destruct (Hwin j p Hp) as (l & w & w' & Hl & Hw & Hw' & Hpose & _).
  rewrite lookup_take_Some, lookup_drop in Hl. destruct Hl as [Hl _].
  split.
  - apply lookup_lt_Some in Hl. fold route in Hl. lia.
  - by exists l, w, w'.
Qed.

(** C9 — the frame of a tick.  A tick changes no waypoint object the
    store held before it, so the waypoints of the base route keep their
    positions, orientations and speeds ([generate_lane] has no assignment
    to a field of the node either: the node is only read).  In the
    deceleration branch every waypoint of the window is a new object, not
    one of the store before the tick: a default [Waypoint()] to which the
    pose of the base waypoint at the same position was assigned and in
    which only the speed field was then set. *)
Theorem planning_frame (self : WaypointUpdater) (h : Heap)
    (out : option Lane.t) (h' : Heap) :
  (forall bl, base_lane self = Some bl -> refs_ok h (Lane.waypoints bl)) ->
  loop_body self h = Some (out, h') ->
  (forall (l : loc) (w : Waypoint.t), h !! l = Some w -> h' !! l = Some w)
  /\ (forall bl l, base_lane self = Some bl -> l ∈ Lane.waypoints bl ->
                   is_Some (h !! l) /\ h' !! l = h !! l)
  /\ (forall c bl lane,
        let ws := py_slice (Lane.waypoints bl) c (c + LOOKAHEAD_WPS) in
        get_closest_waypoint_index self = Some c ->
        base_lane self = Some bl ->
        out = Some lane ->
        (stopline_wp_index self <> -1)%Z ->
        (stopline_wp_index self < c + LOOKAHEAD_WPS)%Z ->
        NoDup (Lane.waypoints lane)
        /\ forall (j : nat) (p : loc),
             Lane.waypoints lane !! j = Some p ->
             h !! p = None
             /\ exists l w v,
                  ws !! j = Some l
                  /\ h !! l = Some w
                  /\ h' !! p
                     = Some (Waypoint.set_linear_x
                               (Waypoint.set_pose Waypoint.new (Waypoint.pose w))
                               v)).
Proof.
  intros Hok Hrun.
  destruct (loop_body_extends self h out h' Hok Hrun) as [ext ->].
  split; [| split].
  - intros l w Hl. by apply lookup_app_l_Some.
  - intros bl l Hbl Hin.
    destruct (refs_ok_lookup h _ l (Hok bl Hbl) Hin) as [w Hw].
    split; [by eexists |]. rewrite Hw. by apply lookup_app_l_Some.
  - intros c bl lane ws Hc Hbl -> Hne Hlt.
    destruct (loop_body_inv _ _ _ _ Hrun) as [[? _] | (lane' & Hout & Hgen)];
      [done |].
    injection Hout as <-.
    destruct (generate_lane_decelerate_inv _ _ _ _ _ _ Hc Hbl (Hok bl Hbl)
                Hne Hlt Hgen) as (Hdec & _ & Hres & _).
    fold ws in Hdec, Hres.
    assert (Hok' : refs_ok h ws) by apply refs_ok_slice, Hok, Hbl.
    split; [rewrite Hres; apply NoDup_seq |].
    intros j p Hp.
    assert (Hj : j < length ws).
    { apply lookup_lt_Some in Hp. by rewrite Hres, length_seq in Hp. }
    destruct (lookup_lt_is_Some_2 _ j Hj) as [l Hl].
    destruct (refs_ok_lookup_at h ws j l Hok' Hl) as [w Hw].
    destruct (decelerate_waypoints_lookup _ _ _ _ _ _ j l w Hok' Hdec Hl Hw)
      as [Hres' Hobj].
    assert (p = length h + j) as -> by congruence.
    split; [apply lookup_ge_None_2; lia |].
    eexists l, w, _. split; [done |]. split; [done |]. exact Hobj.
Qed.

Lemma py_index_mod {A : Type} (l : list A) (i : Z) :
  (- Z.of_nat (length l) <= i < Z.of_nat (length l))%Z ->
  py_index l i = l !! Z.to_nat (i mod Z.of_nat (length l)).
Proof.
  intros Hi. unfold py_index.
  destruct (Z.ltb_spec i 0).
  - destruct (Z.ltb_spec (i + Z.of_nat (length l)) 0); [lia |].
    rewrite <- (Z.mod_add i 1) by lia. rewrite Z.mod_small by lia.
    f_equal. lia.
  - by rewrite Z.mod_small by lia.
Qed.

(** C4 — directionality correction.  Let [c] be the index the tree
    returns for the vehicle position [q], an index of a route of [L]
    positions.  When the dot product of [route[c] - route[(c-1) mod L]]
    with [q - route[c]] is strictly positive the returned index is
    [(c+1) mod L]; otherwise it is [c].  At [q = route[c]] the dot product
    is zero and the index is [c].  (Neither [L >= 2] nor distinct
    positions are needed.) *)
Theorem directionality_correction (self : WaypointUpdater) (msg : PoseStamped.t)
    (tree : KDTree) (pts : list (R * R)) (cur prev : R * R) :
  let q := (Point.x (Pose.position (PoseStamped.pose msg)),
            Point.y (Pose.position (PoseStamped.pose msg))) in
  let c := KDTree_query tree q in
  let L := Z.of_nat (length pts) in
  pose self = Some msg ->
  waypoint_tree self = Some tree ->
  waypoints_2d self = Some pts ->
  (0 <= c < L)%Z ->
  pts !! Z.to_nat c = Some cur ->
  pts !! Z.to_nat ((c - 1) mod L) = Some prev ->
  ((0 < dot (vsub cur prev) (vsub q cur))%R ->
   get_closest_waypoint_index self = Some ((c + 1) mod L)%Z)
  /\ ((dot (vsub cur prev) (vsub q cur) <= 0)%R ->
      get_closest_waypoint_index self = Some c)
  /\ (q = cur ->
      dot (vsub cur prev) (vsub q cur) = 0%R
      /\ get_closest_waypoint_index self = Some c).
Proof.
  intros q c L Hpose Htree Hpts Hc Hcur Hprev.
  assert (Hrun : get_closest_waypoint_index self
                 = if Rlt_dec 0 (dot (vsub cur prev) (vsub q cur))
                   then Some ((c + 1) mod L)%Z else Some c).
  { unfold get_closest_waypoint_index. rewrite Hpose, Htree, Hpts. cbn.
    fold q. fold c.
    rewrite (py_index_nonneg pts c), Hcur by lia. cbn.
    rewrite (py_index_mod pts (c - 1)) by lia. fold L. rewrite Hprev. cbn.
    destruct (Rlt_dec _ _); [| done].
    destruct (Z.eqb_spec L 0); [lia | done]. }
  assert (Hzero : q = cur -> dot (vsub cur prev) (vsub q cur) = 0%R).
  { intros ->. unfold dot, vsub. cbn. ring. }
  split; [| split].
  - intros Hpos. rewrite Hrun. by destruct (Rlt_dec _ _).
  - intros Hnpos. rewrite Hrun. destruct (Rlt_dec _ _); [lra | done].
  - intros Hq. split; [by apply Hzero |].
    rewrite Hrun, (Hzero Hq). destruct (Rlt_dec 0 0); [lra | done].
Qed.

(** C3, as amended — the index is built once.  After a first,
    non-empty route was received, a second call of the route callback
    with any route returns and keeps the 2D positions and the tree built
    from the first route; the pose and the stop index are not touched
    either. *)
Theorem route_index_set_once (self s1 : WaypointUpdater) (h h' : Heap)
    (r1 r2 : Lane.t) :
  truthy_list (waypoints_2d self) = false ->
  Lane.waypoints r1 <> [] ->
  waypoints_cb self h r1 = Some s1 ->
  waypoints_2d s1 = positions_2d h (Lane.waypoints r1)
  /\ exists s2,
       waypoints_cb s1 h' r2 = Some s2
       /\ waypoints_2d s2 = waypoints_2d s1
       /\ waypoint_tree s2 = waypoint_tree s1
       /\ pose s2 = pose s1
       /\ stopline_wp_index s2 = stopline_wp_index s1.
Proof.
  intros Hunset Hne Hfirst. unfold waypoints_cb in Hfirst.
  cbn [waypoints_2d] in Hfirst. rewrite Hunset in Hfirst.
  destruct (positions_2d h (Lane.waypoints r1)) as [pts |] eqn:Hpts; [| done].
  cbn in Hfirst.
  assert (Hpts' : truthy_list (Some pts) = true).
  { apply length_mapM in Hpts. destruct pts; [| done].
    destruct (Lane.waypoints r1); done. }
  assert (H2d : waypoints_2d s1 = Some pts).
  { destruct (KDTree_new pts); by injection Hfirst as <-. }
  split; [done |].
  rewrite H2d. unfold waypoints_cb. cbn [waypoints_2d].
  rewrite H2d, Hpts'. eexists. split; [reflexivity |]. done.
Qed.

(** ** The end-to-end example *)

Lemma example_closest (tree : KDTree) (stop : Z) :
  KDTree_query tree (0%R, 0%R) = 0%Z ->
  get_closest_waypoint_index (example_self tree stop) = Some 0%Z.
Proof.
  intros Hq. unfold get_closest_waypoint_index, example_self.
  cbn [pose waypoint_tree waypoints_2d mbind option_bind].
  change (Point.x (Pose.position (PoseStamped.pose PoseStamped.new))) with 0%R.
  change (Point.y (Pose.position (PoseStamped.pose PoseStamped.new))) with 0%R.
  rewrite Hq.
  change (py_index _ 0%Z) with (@Some (R * R) (0%R, 0%R)).
  change (py_index _ (0 - 1)%Z) with (@Some (R * R) (9%R, 0%R)).
  cbn [mbind option_bind].
  destruct (Rlt_dec _ _) as [Hlt | _]; [| done].
  unfold dot, vsub in Hlt. cbn in Hlt. lra.
Qed.

Lemma example_slice :
  py_slice (Lane.waypoints example_lane) 0 (0 + LOOKAHEAD_WPS) = seq 0 10.
Proof. reflexivity. Qed.

Lemma example_refs_ok : refs_ok example_heap (Lane.waypoints example_lane).
Proof. unfold refs_ok. cbn. repeat constructor. Qed.

Lemma example_hop (a b : Z) :
  b = (a + 1)%Z ->
  euclid (Point.mk (IZR a) 0 0) (Point.mk (IZR b) 0 0) = 1%R.
Proof.
  intros ->. unfold euclid. cbn [Point.x Point.y Point.z].
  rewrite plus_IZR.
  replace ((IZR a - (IZR a + 1)) ^ 2 + (0 - 0) ^ 2 + (0 - 0) ^ 2)%R with 1%R
    by ring.
  apply sqrt_1.
Qed.

Lemma example_chain_0_2 :
  chain_distance (pos_of example_heap (seq 0 10)) 0 2 = 2%R.
Proof.
  change (chain_distance (pos_of example_heap (seq 0 10)) 0 2)
    with (euclid (Point.mk (IZR 0) 0 0) (Point.mk (IZR 1) 0 0)
          + (euclid (Point.mk (IZR 1) 0 0) (Point.mk (IZR 2) 0 0) + 0))%R.
  rewrite !example_hop by reflexivity. lra.
Qed.

Lemma example_chain_1_2 :
  chain_distance (pos_of example_heap (seq 0 10)) 1 2 = 1%R.
Proof.
  change (chain_distance (pos_of example_heap (seq 0 10)) 1 2)
    with (euclid (Point.mk (IZR 1) 0 0) (Point.mk (IZR 2) 0 0) + 0)%R.
  rewrite !example_hop by reflexivity. lra.
Qed.

Lemma sqrt_2_bounds : (101 / 100 < sqrt 2 < 5)%R.
Proof.
  split.
  - rewrite <- (sqrt_square (101 / 100)) by lra. apply sqrt_lt_1_alt. lra.
  - rewrite <- (sqrt_square 5) by lra. apply sqrt_lt_1_alt. lra.
Qed.

Lemma profile_velocity_2_0 : profile_velocity 2 0 = sqrt 2.
Proof.
  unfold profile_velocity, MAX_DECEL.
  replace (2 * 0.5 * 2)%R with 2%R by lra. rewrite Rmult_0_l, Rplus_0_r.
  destruct (Rlt_dec _ _) as [Hlt | _]; [| done].
  pose proof sqrt_2_bounds. lra.
Qed.

Lemma profile_velocity_1_1 : profile_velocity 1 1 = (1 + CONSTANT_DECEL pyv)%R.
Proof.
  unfold profile_velocity, MAX_DECEL.
  replace (2 * 0.5 * 1)%R with 1%R by lra. rewrite sqrt_1, Rmult_1_l.
  destruct (Rlt_dec _ _) as [Hlt | _]; [| done].
  pose proof CONSTANT_DECEL_bounds. lra.
Qed.

(** C8 — the end-to-end example.  Ten waypoints one unit apart on a
    line, each with base speed [5.0]; the vehicle at waypoint 0 (which the
    tree reports as nearest); [stopline_wp_index = 6].  The stop offset is
    [max(6 - 0 - 4, 0) = 2]; the tick returns a window whose waypoint at
    local index 2 has speed [0.0]; the waypoints at local indices 0 and 1,
    at chain distances 2 and 1 from the stop offset, have the speeds
    [sqrt 2] and [1 + CONSTANT_DECEL]: not zero, at most [5.0], and the one
    nearer to the stop is the smaller. *)
Theorem end_to_end_example (tree : KDTree) :
  KDTree_query tree (0%R, 0%R) = 0%Z ->
  stop_offset 6 0 = 2%Z
  /\ chain_distance (pos_of example_heap (seq 0 10)) 0 2 = 2%R
  /\ chain_distance (pos_of example_heap (seq 0 10)) 1 2 = 1%R
  /\ exists lane h' p0 p1 p2 v0 v1,
       generate_lane (example_self tree 6) example_heap = Some (lane, h')
       /\ Lane.waypoints lane !! 0 = Some p0
       /\ Lane.waypoints lane !! 1 = Some p1
       /\ Lane.waypoints lane !! 2 = Some p2
       /\ get_waypoint_velocity h' p0 = Some v0
       /\ get_waypoint_velocity h' p1 = Some v1
       /\ get_waypoint_velocity h' p2 = Some 0%R
       /\ v0 = sqrt 2 /\ v1 = (1 + CONSTANT_DECEL pyv)%R
       /\ (0 < v1)%R /\ (v1 < v0)%R /\ (v0 <= 5)%R /\ (v1 <= 5)%R.
Proof.
  intros Hq. split; [reflexivity |].
  split; [apply example_chain_0_2 |]. split; [apply example_chain_1_2 |].
  pose proof (example_closest tree 6 Hq) as Hc.
  destruct (generate_lane_returns (example_self tree 6) example_heap 0
              example_lane Hc eq_refl example_refs_ok) as (lane & h' & Hrun).
  { right; right; right. rewrite example_slice. reflexivity. }
  destruct (generate_lane_decelerate_inv _ _ _ _ _ _ Hc eq_refl example_refs_ok
              ltac:(done) ltac:(done) Hrun) as (Hdec & _).
  rewrite example_slice in Hdec.
  assert (Hok : refs_ok example_heap (seq 0 10)) by apply example_refs_ok.
  destruct (decelerate_waypoints_lookup _ _ _ _ _ _ 0 0 (example_waypoint 0)
              Hok Hdec eq_refl eq_refl) as [Hp0 Hw0].
  destruct (decelerate_waypoints_lookup _ _ _ _ _ _ 1 1 (example_waypoint 1)
              Hok Hdec eq_refl eq_refl) as [Hp1 Hw1].
  destruct (decelerate_waypoints_lookup _ _ _ _ _ _ 2 2 (example_waypoint 2)
              Hok Hdec eq_refl eq_refl) as [Hp2 Hw2].
  change (stop_offset _ _) with 2%Z in Hw0, Hw1, Hw2.
  change (Waypoint.linear_x (example_waypoint _)) with 5%R in Hw0, Hw1, Hw2.
  change (Z.of_nat 0) with 0%Z in Hw0. change (Z.of_nat 1) with 1%Z in Hw1.
  change (Z.of_nat 2) with 2%Z in Hw2.
  rewrite example_chain_0_2, profile_velocity_2_0 in Hw0.
  rewrite example_chain_1_2, profile_velocity_1_1 in Hw1.
  rewrite chain_distance_empty, profile_velocity_at_stop in Hw2 by done.
  pose proof sqrt_2_bounds as [Hlo Hhi].
  pose proof CONSTANT_DECEL_bounds as [Hc0 Hc1].
  rewrite Rmin_left in Hw0 by lra. rewrite Rmin_left in Hw1 by lra.
  rewrite Rmin_left in Hw2 by lra.
  eexists lane, h', _, _, _, _, _.
  split; [exact Hrun |].
  split; [exact Hp0 |]. split; [exact Hp1 |]. split; [exact Hp2 |].
  split; [exact (velocity_of_decelerated _ _ _ _ Hw0) |].
  split; [exact (velocity_of_decelerated _ _ _ _ Hw1) |].
  split; [exact (velocity_of_decelerated _ _ _ _ Hw2) |].
  repeat split; lra.
Qed.

(** ** The velocity accessors *)

Lemma heap_update_lookup (h h' : Heap) (l : loc)
    (f : Waypoint.t -> Waypoint.t) :
  heap_update h l f = Some h' ->
  exists w, h !! l = Some w /\ h' = <[l := f w]> h.
Proof.
  unfold heap_update. destruct (h !! l) as [w |]; [| done].
  cbn. intros [= <-]. by exists w.
Qed.

Lemma set_waypoint_velocity_returns (h : Heap) (waypoints : list loc)
    (waypoint : Z) (velocity : R) (l : loc) (w : Waypoint.t) :
  py_index waypoints waypoint = Some l ->
  h !! l = Some w ->
  set_waypoint_velocity h waypoints waypoint velocity
  = Some (<[l := Waypoint.set_linear_x w velocity]> h).
Proof.
  intros Hl Hw. unfold set_waypoint_velocity, heap_update.
  rewrite Hl. cbn. by rewrite Hw.
Qed.

(** X1 — [set_waypoint_velocity] followed by [get_waypoint_velocity].
    With [waypoint] an index of the list (a negative one counts from the
    end), [set_waypoint_velocity] returns; the waypoint object the index
    refers to then has the new velocity and its old pose, and every other
    object of the store is as it was. *)
Theorem set_then_get_velocity (h : Heap) (waypoints : list loc) (waypoint : Z)
    (velocity : R) (l : loc) (w : Waypoint.t) :
  py_index waypoints waypoint = Some l ->
  h !! l = Some w ->
  exists h',
    set_waypoint_velocity h waypoints waypoint velocity = Some h'
    /\ get_waypoint_velocity h' l = Some velocity
    /\ (exists w', h' !! l = Some w' /\ Waypoint.pose w' = Waypoint.pose w)
    /\ length h' = length h
    /\ forall l', l' <> l -> h' !! l' = h !! l'.
Proof.
  intros Hl Hw. exists (<[l := Waypoint.set_linear_x w velocity]> h).
  assert (Hlt : l < length h) by (by eapply lookup_lt_Some).
  split; [by apply set_waypoint_velocity_returns |].
  split.
  { unfold get_waypoint_velocity. by rewrite list_lookup_insert_eq. }
  split.
  { eexists. split; [by apply list_lookup_insert_eq | reflexivity]. }
  split; [apply length_insert |].
  intros l' Hne. by apply list_lookup_insert_ne.
Qed.

(** X2 — [set_waypoint_velocity] raises exactly on an index outside the
    list: [waypoint < -len(waypoints)] or [waypoint >= len(waypoints)]. *)
Theorem set_waypoint_velocity_raises (h : Heap) (waypoints : list loc)
    (waypoint : Z) (velocity : R) :
  refs_ok h waypoints ->
  set_waypoint_velocity h waypoints waypoint velocity = None
  <-> (waypoint < - Z.of_nat (length waypoints)
       \/ Z.of_nat (length waypoints) <= waypoint)%Z.
Proof.
  intros Hok. unfold set_waypoint_velocity.
  destruct (py_index waypoints waypoint) as [l |] eqn:Hl.
  - assert (Hin : is_Some (py_index waypoints waypoint)) by (by eexists).
    apply py_index_is_Some in Hin.
    destruct (refs_ok_lookup h waypoints l Hok (py_index_elem_of _ _ _ Hl))
      as [w Hw].
    cbn. unfold heap_update. rewrite Hw. cbn. split; [done | lia].
  - cbn. split; [intros _ | done].
    destruct (Z_lt_le_dec waypoint (- Z.of_nat (length waypoints)));
      [by left |].
    destruct (Z_lt_le_dec waypoint (Z.of_nat (length waypoints))); [| by right].
    assert (Hin : is_Some (py_index waypoints waypoint))
      by (apply py_index_is_Some; lia).
    rewrite Hl in Hin. by destruct Hin.
Qed.

(** ** More on [distance] *)

Lemma chain_from_app (pos : Z -> Point.t) (n m : nat) (k : Z) :
  chain_from pos (n + m) k
  = (chain_from pos n k + chain_from pos m (k + Z.of_nat n))%R.
Proof.
  revert k. induction n as [| n IH]; intros k.
  - cbn [chain_from Nat.add]. rewrite Z.add_0_r. lra.
  - cbn [chain_from Nat.add]. rewrite IH.
    replace (k + 1 + Z.of_nat n)%Z with (k + Z.of_nat (S n))%Z by lia. lra.
Qed.

Lemma chain_distance_split (pos : Z -> Point.t) (a b c : Z) :
  (a <= b <= c)%Z ->
  chain_distance pos a c
  = (chain_distance pos a b + chain_distance pos b c)%R.
Proof.
  intros Habc. unfold chain_distance.
  replace (Z.to_nat (c - a)) with (Z.to_nat (b - a) + Z.to_nat (c - b)) by lia.
  rewrite chain_from_app. do 2 f_equal. lia.
Qed.

Lemma distance_in_bounds (h : Heap) (ws : list loc) (a b : Z) :
  refs_ok h ws ->
  (- Z.of_nat (length ws) <= a)%Z -> (a <= b)%Z ->
  (b < Z.of_nat (length ws))%Z ->
  distance h ws a b = Some (chain_distance (pos_of h ws) a b).
Proof.
  intros Hok Ha Hab Hb. apply distance_chain; [done |].
  intros k Hk. apply position_at_is_Some; [done | lia].
Qed.

(** An index outside the list has no position: the [IndexError] of
    [waypoints[i]]. *)
Lemma position_at_out_of_range (h : Heap) (ws : list loc) (i : Z) :
  (i < - Z.of_nat (length ws) \/ Z.of_nat (length ws) <= i)%Z ->
  position_at h ws i = None.
Proof.
  intros Hout. unfold position_at.
  destruct (py_index ws i) eqn:Hi; [| done].
  assert (His : is_Some (py_index ws i)) by (by eexists).
  apply py_index_is_Some in His. lia.
Qed.

(** A call that returns on a range that is not empty has read both ends
    of the range. *)
Lemma distance_returned_in_bounds (h : Heap) (ws : list loc) (a b : Z) (d : R) :
  (a <= b)%Z -> distance h ws a b = Some d ->
  (- Z.of_nat (length ws) <= a)%Z /\ (b < Z.of_nat (length ws))%Z.
Proof.
  intros Hab Hd. unfold distance in Hd. split.
  - destruct (Z_lt_le_dec a (- Z.of_nat (length ws))) as [Hlow |]; [| done].
    rewrite (distance_loop_None _ _ _ _ _ _ a) in Hd; [done | lia |].
    apply position_at_out_of_range. by left.
  - destruct (Z_lt_le_dec b (Z.of_nat (length ws))) as [| Hhigh]; [done |].
    rewrite (distance_loop_None _ _ _ _ _ _ b) in Hd; [done | lia |].
    apply position_at_out_of_range. by right.
Qed.

(** X3 — [distance] is monotone in both indices.  When
    [distance(a, c)] returns and [a <= b <= c], the calls
    [distance(a, b)] and [distance(b, c)] return as well, and neither
    result is negative or exceeds [distance(a, c)]: the distance to a
    fixed end does not grow when the start moves forward, and the
    distance from a fixed start does not shrink when the end moves
    forward. *)
Theorem distance_monotone (h : Heap) (ws : list loc) (a b c : Z) (dac : R) :
  refs_ok h ws ->
  (a <= b)%Z -> (b <= c)%Z ->
  distance h ws a c = Some dac ->
  exists dab dbc,
    distance h ws a b = Some dab
    /\ distance h ws b c = Some dbc
    /\ (0 <= dab <= dac)%R /\ (0 <= dbc <= dac)%R.
Proof.
  intros Hok Hab Hbc Hac.
  destruct (distance_returned_in_bounds h ws a c dac ltac:(lia) Hac)
    as [Ha Hc].
  rewrite distance_in_bounds in Hac by (done || lia). injection Hac as <-.
  exists (chain_distance (pos_of h ws) a b), (chain_distance (pos_of h ws) b c).
  rewrite !distance_in_bounds by (done || lia).
  rewrite (chain_distance_split _ a b c) by lia.
  pose proof (chain_distance_nonneg (pos_of h ws) a b).
  pose proof (chain_distance_nonneg (pos_of h ws) b c).
  repeat split; lra.
Qed.

(** X4 — [distance] raises on a range that is not empty and leaves the
    list: with [wp1 <= wp2] and [wp1 < -len(waypoints)] or
    [wp2 >= len(waypoints)], the loop reaches an index that
    [waypoints[...]] rejects, whatever it has summed before. *)
Theorem distance_raises (h : Heap) (ws : list loc) (wp1 wp2 : Z) :
  (wp1 <= wp2)%Z ->
  (wp1 < - Z.of_nat (length ws) \/ Z.of_nat (length ws) <= wp2)%Z ->
  distance h ws wp1 wp2 = None.
Proof.
  intros Hle Hout. unfold distance.
  destruct Hout as [Hlow | Hhigh].
  - apply (distance_loop_None _ _ _ _ _ _ wp1); [lia |].
    apply position_at_out_of_range. by left.
  - apply (distance_loop_None _ _ _ _ _ _ wp2); [lia |].
    apply position_at_out_of_range. by right.
Qed.

(** ** When a tick raises *)

(** X6 — a stop offset beyond the slice makes the tick raise.  In the
    deceleration branch, on a slice that is not empty and whose stop
    offset [max(stopline_wp_index - closest_index - STOP_LINE_MARGIN, 0)]
    is not one of its indices, [generate_lane] raises: the first call of
    [distance] runs past the end of the slice. *)
Theorem generate_lane_raises (self : WaypointUpdater) (h : Heap) (c : Z)
    (bl : Lane.t) :
  let ws := py_slice (Lane.waypoints bl) c (c + LOOKAHEAD_WPS) in
  get_closest_waypoint_index self = Some c ->
  base_lane self = Some bl ->
  refs_ok h (Lane.waypoints bl) ->
  (stopline_wp_index self <> -1)%Z ->
  (stopline_wp_index self < c + LOOKAHEAD_WPS)%Z ->
  ws <> [] ->
  (Z.of_nat (length ws)
   <= py_max (stopline_wp_index self - c - STOP_LINE_MARGIN) 0)%Z ->
  generate_lane self h = None.
Proof.
  intros ws Hc Hbl Hok Hne Hlt Hnonnil Hout. rewrite py_max_Zmax in Hout.
  fold (stop_offset (stopline_wp_index self) c) in Hout.
  assert (Hok' : refs_ok h ws) by (by apply refs_ok_slice).
  rewrite (generate_lane_decelerate _ _ c bl) by done. fold ws.
  by rewrite decelerate_waypoints_raises.
Qed.

(** ** The profile, whatever the interpreter *)


(** ** The sign of the emitted speeds *)

Lemma profile_velocity_nonneg (d : R) (i : Z) :
  (0 <= i)%Z -> (0 <= profile_velocity d i)%R.
Proof.
  intros Hi. unfold profile_velocity.
  destruct (Rlt_dec _ _) as [_ | _]; [lra |].
  pose proof (sqrt_pos (2 * MAX_DECEL * d)).
  pose proof CONSTANT_DECEL_bounds as [Hc _].
  apply IZR_le in Hi. nra.
Qed.

(** The velocity never lies strictly between [0] and the threshold. *)
Lemma profile_velocity_snapped (d : R) (i : Z) :
  profile_velocity d i = 0%R \/ (1 <= profile_velocity d i)%R.
Proof.
  unfold profile_velocity.
  destruct (Rlt_dec _ _) as [_ | Hge]; [by left | right; lra].
Qed.

(** X7 — the sign of the speeds of a deceleration window.  A base speed
    that is not negative gives an emitted speed between [0] and the base
    speed, and one that is either the base speed, [0], or at least the
    creep threshold [1.0]; a base speed that is not positive is emitted
    unchanged. *)
Theorem deceleration_speed_sign (self : WaypointUpdater) (h : Heap) (c : Z)
    (bl : Lane.t) (lane : Lane.t) (h' : Heap) (j : nat) (l : loc) (base : R) :
  let ws := py_slice (Lane.waypoints bl) c (c + LOOKAHEAD_WPS) in
  get_closest_waypoint_index self = Some c ->
  base_lane self = Some bl ->
  refs_ok h (Lane.waypoints bl) ->
  (stopline_wp_index self <> -1)%Z ->
  (stopline_wp_index self < c + LOOKAHEAD_WPS)%Z ->
  generate_lane self h = Some (lane, h') ->
  ws !! j = Some l ->
  get_waypoint_velocity h l = Some base ->
  exists p v,
    Lane.waypoints lane !! j = Some p
    /\ get_waypoint_velocity h' p = Some v
    /\ ((0 <= base)%R ->
        (0 <= v <= base)%R /\ (v = base \/ v = 0%R \/ (1 <= v)%R))
    /\ ((base <= 0)%R -> v = base).
Proof.
  intros ws Hc Hbl Hok Hne Hlt Hrun Hl Hbase.
  destruct (generate_lane_decelerate_inv _ _ _ _ _ _ Hc Hbl Hok Hne Hlt Hrun)
    as (Hdec & _).
  fold ws in Hdec.
  assert (Hok' : refs_ok h ws) by (by apply refs_ok_slice).
  destruct (refs_ok_lookup_at h ws j l Hok' Hl) as [w Hw].
  destruct (decelerate_waypoints_lookup _ _ _ _ _ _ j l w Hok' Hdec Hl Hw)
    as [Hres Hobj].
  unfold get_waypoint_velocity in Hbase. rewrite Hw in Hbase.
  cbn in Hbase. injection Hbase as <-.
  eexists _, _. split; [exact Hres |].
  split; [exact (velocity_of_decelerated _ _ _ _ Hobj) |].
  set (v := profile_velocity _ _).
  assert (Hv : (0 <= v)%R) by (apply profile_velocity_nonneg; lia).
  assert (Hsnap : v = 0%R \/ (1 <= v)%R) by apply profile_velocity_snapped.
  unfold Rmin. destruct (Rle_dec v (Waypoint.linear_x w)) as [Hle | Hgt].
  - split.
    + intros _. split; [lra |]. destruct Hsnap; auto.
    + intros Hneg. lra.
  - split.
    + intros Hpos. split; [lra | by left].
    + done.
Qed.

(** X8 — a stop at most [STOP_LINE_MARGIN] waypoints ahead of the
    closest index, or anywhere behind it (any stop index other than [-1],
    negative ones included), stops the whole window: the stop offset is
    [0], the tick returns, and with base speeds that are not negative
    every waypoint of the window has speed [0.0]. *)
Theorem stop_within_margin (self : WaypointUpdater) (h : Heap) (c : Z)
    (bl : Lane.t) :
  let ws := py_slice (Lane.waypoints bl) c (c + LOOKAHEAD_WPS) in
  get_closest_waypoint_index self = Some c ->
  base_lane self = Some bl ->
  refs_ok h (Lane.waypoints bl) ->
  (stopline_wp_index self <> -1)%Z ->
  (stopline_wp_index self <= c + STOP_LINE_MARGIN)%Z ->
  exists lane h',
    generate_lane self h = Some (lane, h')
    /\ length (Lane.waypoints lane) = length ws
    /\ ((forall l v, l ∈ ws -> get_waypoint_velocity h l = Some v ->
                     (0 <= v)%R) ->
        forall p, p ∈ Lane.waypoints lane ->
                  get_waypoint_velocity h' p = Some 0%R).
Proof.
  intros ws Hc Hbl Hok Hne Hmargin.
  assert (Hso : stop_offset (stopline_wp_index self) c = 0%Z)
    by (unfold stop_offset; lia).
  assert (Hlt : (stopline_wp_index self < c + LOOKAHEAD_WPS)%Z)
    by (unfold STOP_LINE_MARGIN, LOOKAHEAD_WPS in *; lia).
  assert (Hok' : refs_ok h ws) by (by apply refs_ok_slice).
  destruct (generate_lane_returns self h c bl Hc Hbl Hok) as (lane & h' & Hrun).
  { fold ws. rewrite Hso. destruct ws; [by right; right; left |].
    right; right; right. cbn. lia. }
  exists lane, h'. split; [done |].
  destruct (generate_lane_decelerate_inv _ _ _ _ _ _ Hc Hbl Hok Hne Hlt Hrun)
    as (Hdec & _ & Hres & _).
  fold ws in Hdec, Hres. split; [by rewrite Hres, length_seq |].
  intros Hspeed p Hp. apply list_elem_of_lookup in Hp as [j Hj].
  assert (Hjlen : j < length ws).
  { apply lookup_lt_Some in Hj. by rewrite Hres, length_seq in Hj. }
  destruct (window_stopped_from_offset self ws c h _ h' j Hok'
              ltac:(by apply py_slice_length_le) Hspeed Hdec
              ltac:(rewrite Hso; lia) Hjlen) as (p' & Hp' & Hzero).
  congruence.
Qed.

(** ** The closest index *)

(** The closest index, case by case. *)
Lemma closest_index_cases (self : WaypointUpdater) (msg : PoseStamped.t)
    (tree : KDTree) (pts : list (R * R)) :
  let c := KDTree_query tree
             (Point.x (Pose.position (PoseStamped.pose msg)),
              Point.y (Pose.position (PoseStamped.pose msg))) in
  let L := Z.of_nat (length pts) in
  pose self = Some msg ->
  waypoint_tree self = Some tree ->
  waypoints_2d self = Some pts ->
  (0 <= c < L)%Z ->
  exists r,
    get_closest_waypoint_index self = Some r
    /\ (0 <= r < L)%Z
    /\ (r = c \/ (c < L - 1 /\ r = c + 1) \/ (c = L - 1 /\ r = 0))%Z.
Proof.
  intros c L Hpose Htree Hpts Hc.
  unfold get_closest_waypoint_index. rewrite Hpose, Htree, Hpts. cbn.
  fold c.
  destruct (proj2 (py_index_is_Some pts c) ltac:(fold L; lia)) as [cur ->].
  destruct (proj2 (py_index_is_Some pts (c - 1)) ltac:(fold L; lia))
    as [prev ->].
  cbn. fold L. destruct (Rlt_dec _ _) as [_ | _].
  - destruct (Z.eqb_spec L 0); [lia |].
    exists ((c + 1) mod L)%Z. split; [done |].
    split; [apply Z.mod_pos_bound; lia |].
    destruct (Z.eq_dec c (L - 1)%Z) as [Heq | Hne].
    + right; right. split; [done |].
      replace (c + 1)%Z with (1 * L)%Z by lia.
      apply Z.mod_mul. lia.
    + right; left. split; [lia |]. apply Z.mod_small. lia.
  - exists c. split; [done |]. split; [done | by left].
Qed.

(** X9 — the closest index is an index of the route.  When the tree
    answers with an index [c] of the position list, the call returns [c]
    or its successor: [c + 1] before the last position and [0], wrapping
    around, at the last one; never an index out of the list. *)
Theorem closest_index_in_route (self : WaypointUpdater) (msg : PoseStamped.t)
    (tree : KDTree) (pts : list (R * R)) :
  let c := KDTree_query tree
             (Point.x (Pose.position (PoseStamped.pose msg)),
              Point.y (Pose.position (PoseStamped.pose msg))) in
  let L := Z.of_nat (length pts) in
  pose self = Some msg ->
  waypoint_tree self = Some tree ->
  waypoints_2d self = Some pts ->
  (0 <= c < L)%Z ->
  exists r,
    get_closest_waypoint_index self = Some r
    /\ (0 <= r < L)%Z
    /\ (r = c \/ (c < L - 1 /\ r = c + 1) \/ (c = L - 1 /\ r = 0))%Z.
Proof. apply closest_index_cases. Qed.

(** X10 — when the closest index cannot be computed.  With a pose, a
    tree and a position list of length [L], the call raises exactly when
    the index [c] the tree answers is not in [-L < c < L]: [c >= L] (the
    answer of a tree that finds no neighbour), or [c <= -L]; on an empty
    position list every answer raises. *)
Theorem closest_index_raises (self : WaypointUpdater) (msg : PoseStamped.t)
    (tree : KDTree) (pts : list (R * R)) :
  let c := KDTree_query tree
             (Point.x (Pose.position (PoseStamped.pose msg)),
              Point.y (Pose.position (PoseStamped.pose msg))) in
  let L := Z.of_nat (length pts) in
  pose self = Some msg ->
  waypoint_tree self = Some tree ->
  waypoints_2d self = Some pts ->
  (get_closest_waypoint_index self = None <-> (c <= - L \/ L <= c)%Z)
  /\ (pts = [] -> get_closest_waypoint_index self = None).
Proof.
  intros c L Hpose Htree Hpts.
  assert (Hiff : get_closest_waypoint_index self = None
                 <-> (c <= - L \/ L <= c)%Z).
  { unfold get_closest_waypoint_index. rewrite Hpose, Htree, Hpts. cbn.
    fold c.
    destruct (py_index pts c) as [cur |] eqn:Hcur.
    - assert (His : is_Some (py_index pts c)) by (by eexists).
      apply py_index_is_Some in His. fold L in His. cbn.
      destruct (py_index pts (c - 1)) as [prev |] eqn:Hprev.
      + assert (His' : is_Some (py_index pts (c - 1))) by (by eexists).
        apply py_index_is_Some in His'. fold L in His'. cbn. fold L.
        destruct (Rlt_dec _ _) as [_ | _].
        * destruct (Z.eqb_spec L 0); [lia |]. split; [done | lia].
        * split; [done | lia].
      + cbn. split; [intros _ | done].
        destruct (Z_le_gt_dec c (- L)); [by left |].
        assert (His' : is_Some (py_index pts (c - 1)))
          by (apply py_index_is_Some; fold L; lia).
        rewrite Hprev in His'. by destruct His'.
    - cbn. split; [intros _ | done].
      destruct (Z_le_gt_dec c (- L)); [by left |].
      destruct (Z_le_gt_dec L c); [by right |].
      assert (His : is_Some (py_index pts c))
        by (apply py_index_is_Some; fold L; lia).
      rewrite Hcur in His. by destruct His. }
  split; [exact Hiff |].
  intros ->. apply Hiff. unfold L. cbn. lia.
Qed.

(** ** The callbacks *)

Lemma positions_2d_Forall2 (h : Heap) (ws : list loc) :
  refs_ok h ws ->
  exists pts,
    positions_2d h ws = Some pts
    /\ Forall2 (fun l pt => exists w, h !! l = Some w
                  /\ pt = (Point.x (Waypoint.position w),
                           Point.y (Waypoint.position w))) ws pts.
Proof.
  intros Hok. unfold positions_2d.
  set (f := fun l : loc => _).
  assert (His : is_Some (mapM f ws)).
  { apply mapM_is_Some. unfold refs_ok in Hok. rewrite Forall_forall in *.
    intros l Hl. destruct (lookup_lt_is_Some_2 h l (Hok l Hl)) as [w Hw].
    unfold f. cbn. rewrite Hw. by eexists. }
  destruct His as [pts Hpts]. exists pts. split; [done |].
  apply mapM_Some in Hpts. eapply Forall2_impl; [exact Hpts |].
  intros l pt Hf. unfold f in Hf. destruct (h !! l) as [w |]; [| done].
  cbn in Hf. injection Hf as <-. by exists w.
Qed.

(** What one call of [waypoints_cb] does to each field. *)
Lemma waypoints_cb_fields (self s : WaypointUpdater) (h : Heap) (r : Lane.t) :
  waypoints_cb self h r = Some s ->
  base_lane s = Some r
  /\ pose s = pose self
  /\ stopline_wp_index s = stopline_wp_index self
  /\ (truthy_list (waypoints_2d self) = true ->
      waypoints_2d s = waypoints_2d self
      /\ waypoint_tree s = waypoint_tree self)
  /\ (truthy_list (waypoints_2d self) = false ->
      exists pts,
        positions_2d h (Lane.waypoints r) = Some pts
        /\ waypoints_2d s = Some pts
        /\ waypoint_tree s
           = match KDTree_new pts with
             | Some tree => Some tree
             | None => waypoint_tree self
             end).
Proof.
  unfold waypoints_cb. cbn [waypoints_2d].
  destruct (truthy_list (waypoints_2d self)) eqn:Htruthy.
  - intros [= <-]. cbn. repeat split; done.
  - destruct (positions_2d h (Lane.waypoints r)) as [pts |]; [| done].
    cbn. intros Hs.
    assert (Hs' : s = mkWaypointUpdater (Some r) (pose self)
                        (stopline_wp_index self) (Some pts)
                        (match KDTree_new pts with
                         | Some tree => Some tree
                         | None => waypoint_tree self
                         end)).
    { destruct (KDTree_new pts); by injection Hs as <-. }
    subst s. cbn. repeat split; try done. intros _. by exists pts.
Qed.

Lemma waypoints_cb_returns (self : WaypointUpdater) (h : Heap) (r : Lane.t) :
  refs_ok h (Lane.waypoints r) -> is_Some (waypoints_cb self h r).
Proof.
  intros Hok. unfold waypoints_cb. cbn [waypoints_2d].
  destruct (truthy_list (waypoints_2d self)); [by eexists |].
  destruct (positions_2d_Forall2 h _ Hok) as (pts & -> & _). cbn.
  destruct (KDTree_new pts); by eexists.
Qed.

Lemma truthy_list_positions (h : Heap) (ws : list loc) (pts : list (R * R)) :
  positions_2d h ws = Some pts ->
  truthy_list (Some pts) = match ws with [] => false | _ :: _ => true end.
Proof.
  intros Hpts. apply length_mapM in Hpts.
  destruct ws, pts; done.
Qed.

(** X11 — the first route message builds an index that matches the
    route.  While no position list is stored, [waypoints_cb] stores the
    route and a position list of the same length whose [i]-th entry is the
    [x] and [y] of the [i]-th waypoint (its [z] is dropped), and stores the
    tree built from that list, or leaves the tree field as it was when the
    constructor raises; the pose and the stop index are not touched. *)
Theorem first_route_builds_index (self : WaypointUpdater) (h : Heap)
    (r : Lane.t) :
  truthy_list (waypoints_2d self) = false ->
  refs_ok h (Lane.waypoints r) ->
  exists s pts,
    waypoints_cb self h r = Some s
    /\ base_lane s = Some r
    /\ waypoints_2d s = Some pts
    /\ length pts = length (Lane.waypoints r)
    /\ (forall i l w,
          Lane.waypoints r !! i = Some l -> h !! l = Some w ->
          pts !! i = Some (Point.x (Waypoint.position w),
                           Point.y (Waypoint.position w)))
    /\ waypoint_tree s
       = match KDTree_new pts with
         | Some tree => Some tree
         | None => waypoint_tree self
         end
    /\ pose s = pose self
    /\ stopline_wp_index s = stopline_wp_index self.
Proof.
  intros Hunset Hok.
  destruct (waypoints_cb_returns self h r Hok) as [s Hs].
  destruct (waypoints_cb_fields _ _ _ _ Hs)
    as (Hbl & Hpose & Hstop & _ & Hbuild).
  destruct (Hbuild Hunset) as (pts & Hpts & H2d & Htree).
  destruct (positions_2d_Forall2 h _ Hok) as (pts' & Hpts' & Hall).
  assert (pts' = pts) as -> by congruence.
  exists s, pts. repeat split; try done.
  - symmetry. by eapply Forall2_length.
  - intros i l w Hl Hw.
    destruct (Forall2_lookup_l _ _ _ _ _ Hall Hl) as (pt & Hpt & w' & Hw' & ->).
    by assert (w' = w) as -> by congruence.
Qed.

(** ** Sequences of messages *)

Lemma latest_cons {A : Type} (f : Message -> option A) (start : A)
    (m : Message) (ms : list Message) :
  latest f start (m :: ms) = latest f (default start (f m)) ms.
Proof. reflexivity. Qed.

Lemma latest_none {A : Type} (f : Message -> option A) (start : A)
    (ms : list Message) :
  Forall (fun m => f m = None) ms -> latest f start ms = start.
Proof.
  revert start. induction ms as [| m ms IH]; intros start Hall; [done |].
  apply Forall_cons in Hall as [Hm Hms]. rewrite latest_cons, Hm. by apply IH.
Qed.

(** What one delivered message does to the replace-latest fields. *)
Lemma deliver_latest (self s : WaypointUpdater) (h : Heap) (m : Message) :
  deliver self h m = Some s ->
  pose s = default (pose self) (Some <$> pose_of_message m)
  /\ base_lane s = default (base_lane self) (Some <$> route_of_message m)
  /\ stopline_wp_index s = default (stopline_wp_index self) (stop_of_message m).
Proof.
  destruct m as [msg | r | data]; cbn [deliver].
  - by intros [= <-].
  - intros Hs.
    by destruct (waypoints_cb_fields _ _ _ _ Hs) as (-> & -> & -> & _).
  - by intros [= <-].
Qed.

Lemma deliver_all_latest (self s : WaypointUpdater) (h : Heap)
    (ms : list Message) :
  deliver_all self h ms = Some s ->
  pose s = latest (fun m => Some <$> pose_of_message m) (pose self) ms
  /\ base_lane s
     = latest (fun m => Some <$> route_of_message m) (base_lane self) ms
  /\ stopline_wp_index s = latest stop_of_message (stopline_wp_index self) ms.
Proof.
  revert self. induction ms as [| m ms IH]; intros self Hrun.
  - by injection Hrun as <-.
  - cbn [deliver_all] in Hrun.
    destruct (deliver self h m) as [self' |] eqn:Hm; [| done]. cbn in Hrun.
    destruct (deliver_latest _ _ _ _ Hm) as (Hp & Hb & Hs).
    rewrite !latest_cons, <- Hp, <- Hb, <- Hs. by apply IH.
Qed.

(** Once a position list with an element is stored, no message changes
    it or the tree field, and every message is accepted. *)
Lemma deliver_all_index_kept (self : WaypointUpdater) (h : Heap)
    (ms : list Message) :
  truthy_list (waypoints_2d self) = true ->
  exists s,
    deliver_all self h ms = Some s
    /\ waypoints_2d s = waypoints_2d self
    /\ waypoint_tree s = waypoint_tree self.
Proof.
  revert self. induction ms as [| m ms IH]; intros self Htruthy.
  - by exists self.
  - assert (Hm : exists self', deliver self h m = Some self'
                   /\ waypoints_2d self' = waypoints_2d self
                   /\ waypoint_tree self' = waypoint_tree self).
    { destruct m as [msg | r | data]; cbn [deliver].
      - by eexists.
      - unfold waypoints_cb. cbn [waypoints_2d]. rewrite Htruthy. by eexists.
      - by eexists. }
    destruct Hm as (self' & Hm & H2d & Htree).
    destruct (IH self') as (s & Hs & H2d' & Htree'); [by rewrite H2d |].
    exists s. cbn [deliver_all]. rewrite Hm. cbn.
    split; [done |]. split; congruence.
Qed.


(** X12 — replace-latest.  After any sequence of delivered messages the
    stored pose is that of the last pose message, the stored route that of
    the last route message and the stop index the [data] of the last
    traffic message; a field that got no message is as it was. *)
Theorem latest_message_wins (self s : WaypointUpdater) (h : Heap)
    (ms : list Message) :
  deliver_all self h ms = Some s ->
  pose s = latest (fun m => Some <$> pose_of_message m) (pose self) ms
  /\ base_lane s
     = latest (fun m => Some <$> route_of_message m) (base_lane self) ms
  /\ stopline_wp_index s = latest stop_of_message (stopline_wp_index self) ms.
Proof. apply deliver_all_latest. Qed.

(** X13 — the index is never rebuilt.  Once a position list with an
    element is stored, every later sequence of messages is accepted and
    leaves the position list and the tree field as they are.  A tree
    constructor that raised on that list is therefore never called again:
    the tree field stays unset and the closest index cannot be computed. *)
Theorem index_never_rebuilt (self : WaypointUpdater) (h : Heap)
    (ms : list Message) :
  truthy_list (waypoints_2d self) = true ->
  exists s,
    deliver_all self h ms = Some s
    /\ waypoints_2d s = waypoints_2d self
    /\ waypoint_tree s = waypoint_tree self
    /\ (waypoint_tree self = None -> get_closest_waypoint_index s = None).
Proof.
  intros Htruthy.
  destruct (deliver_all_index_kept self h ms Htruthy) as (s & Hs & H2d & Htree).
  exists s. repeat split; try done.
  intros Hnone. unfold get_closest_waypoint_index.
  rewrite Htree, Hnone. by destruct (pose s).
Qed.

(** X14 — the index belongs to the first route that has a waypoint, the
    stored route is the last one.  Starting with no position list, after
    any sequence of messages the position list is the one of the first
    route message with a waypoint, and the tree is the one built from it
    if the constructor returned; until such a route arrives no list with an
    element is stored, so a route without waypoints does not keep a later
    one from building the index. *)
Theorem index_of_first_nonempty_route (self : WaypointUpdater) (h : Heap)
    (ms : list Message) :
  truthy_list (waypoints_2d self) = false ->
  routes_ok h ms ->
  exists s,
    deliver_all self h ms = Some s
    /\ base_lane s
       = latest (fun m => Some <$> route_of_message m) (base_lane self) ms
    /\ match first_nonempty_route ms with
       | Some r =>
           exists pts,
             positions_2d h (Lane.waypoints r) = Some pts
             /\ waypoints_2d s = Some pts
             /\ (forall tree, KDTree_new pts = Some tree ->
                              waypoint_tree s = Some tree)
       | None => truthy_list (waypoints_2d s) = false
       end.
Proof.
  intros Hunset Hok.
  assert (Hmain : exists s,
            deliver_all self h ms = Some s
            /\ match first_nonempty_route ms with
               | Some r =>
                   exists pts,
                     positions_2d h (Lane.waypoints r) = Some pts
                     /\ waypoints_2d s = Some pts
                     /\ (forall tree, KDTree_new pts = Some tree ->
                                      waypoint_tree s = Some tree)
               | None => truthy_list (waypoints_2d s) = false
               end).
  { revert self Hunset. induction ms as [| m ms IH]; intros self Hunset.
    - by exists self.
    - apply Forall_cons in Hok as [Hm Hms]. specialize (IH Hms).
      destruct m as [msg | r | data].
      + destruct (IH (pose_cb self msg) Hunset) as (s & Hs & Hfirst).
        by exists s.
      + destruct (waypoints_cb_returns self h r (Hm r eq_refl)) as [s1 Hs1].
        destruct (waypoints_cb_fields _ _ _ _ Hs1) as (_ & _ & _ & _ & Hbuild).
        destruct (Hbuild Hunset) as (pts & Hpts & H2d & Htree).
        pose proof (truthy_list_positions _ _ _ Hpts) as Htruthy.
        cbn [deliver_all deliver first_nonempty_route]. rewrite Hs1. cbn.
        destruct (Lane.waypoints r) as [| l ws] eqn:Hws.
        * apply IH. by rewrite H2d.
        * destruct (deliver_all_index_kept s1 h ms) as (s & Hs & H2d' & Htree');
            [by rewrite H2d |].
          exists s. split; [done |]. exists pts.
          split; [by rewrite Hws |]. split; [congruence |].
          intros tree Hnew. rewrite Htree', Htree. by rewrite Hnew.
      + destruct (IH (traffic_cb self data) Hunset) as (s & Hs & Hfirst).
        by exists s. }
  destruct Hmain as (s & Hs & Hfirst). exists s. split; [done |].
  split; [| done]. by destruct (deliver_all_latest _ _ _ _ Hs) as (_ & ? & _).
Qed.

(** X15 — nothing is published before a pose and a route arrived.
    After any messages delivered to a new node, if none of them was a pose
    or none of them was a route, a turn of the loop publishes nothing and
    leaves the store as it is. *)
Theorem nothing_published_before_pose_and_route (s : WaypointUpdater)
    (h h0 : Heap) (ms : list Message) :
  deliver_all init h ms = Some s ->
  Forall (fun m => pose_of_message m = None) ms
  \/ Forall (fun m => route_of_message m = None) ms ->
  loop_body s h0 = Some (None, h0).
Proof.
  intros Hrun Hmissing.
  destruct (deliver_all_latest _ _ _ _ Hrun) as (Hpose & Hroute & _).
  unfold loop_body. destruct Hmissing as [Hnone | Hnone].
  - rewrite latest_none in Hpose; [by rewrite Hpose |].
    eapply Forall_impl; [exact Hnone |]. by intros m ->.
  - rewrite latest_none in Hroute.
    + rewrite Hroute. cbn. by rewrite andb_false_r.
    + eapply Forall_impl; [exact Hnone |]. by intros m ->.
Qed.

(** X16 — no deceleration before a traffic message.  A new node has the
    stop index [-1], and pose and route messages keep it: until a traffic
    message arrives every turn of the loop that publishes a lane publishes
    a slice of the stored route itself, the same waypoint objects, and
    allocates nothing. *)
Theorem no_deceleration_before_traffic_message (s : WaypointUpdater)
    (h h0 h' : Heap) (ms : list Message) (out : option Lane.t) :
  deliver_all init h ms = Some s ->
  Forall (fun m => stop_of_message m = None) ms ->
  loop_body s h0 = Some (out, h') ->
  stopline_wp_index s = (-1)%Z
  /\ h' = h0
  /\ forall lane,
       out = Some lane ->
       exists c bl,
         get_closest_waypoint_index s = Some c
         /\ base_lane s = Some bl
         /\ Lane.waypoints lane
            = py_slice (Lane.waypoints bl) c (c + LOOKAHEAD_WPS).
Proof.
  intros Hrun Hnone Hloop.
  destruct (deliver_all_latest _ _ _ _ Hrun) as (_ & _ & Hstop).
  rewrite latest_none in Hstop by done. cbn in Hstop.
  split; [done |].
  destruct (loop_body_inv _ _ _ _ Hloop) as [[-> ->] | (lane & -> & Hgen)];
    [by split |].
  destruct (generate_lane_inputs _ _ _ _ Hgen) as (c & bl & Hc & Hbl).
  rewrite (generate_lane_pass_through _ _ c bl) in Hgen by auto.
  injection Hgen as <- <-. split; [done |].
  intros lane' [= <-]. by exists c, bl.
Qed.

(** ** Who shares objects with the route *)

(** X17 — a pass-through lane shares its waypoints with the stored
    route.  In the pass-through branch the published lane holds references
    to the route's own waypoint objects, so [set_waypoint_velocity] on
    waypoint [j] of the published lane changes the velocity of waypoint
    [closest_index + j] of the stored route. *)
Theorem pass_through_lane_shares_route (self : WaypointUpdater) (h : Heap)
    (c : Z) (bl : Lane.t) (j : nat) (l : loc) (velocity : R) :
  get_closest_waypoint_index self = Some c ->
  base_lane self = Some bl ->
  refs_ok h (Lane.waypoints bl) ->
  (0 <= c)%Z ->
  (stopline_wp_index self = -1
   \/ c + LOOKAHEAD_WPS <= stopline_wp_index self)%Z ->
  py_slice (Lane.waypoints bl) c (c + LOOKAHEAD_WPS) !! j = Some l ->
  exists lane h',
    generate_lane self h = Some (lane, h)
    /\ set_waypoint_velocity h (Lane.waypoints lane) (Z.of_nat j) velocity
       = Some h'
    /\ Lane.waypoints bl !! (Z.to_nat c + j) = Some l
    /\ get_waypoint_velocity h' l = Some velocity.
Proof.
  intros Hc Hbl Hok Hc0 Hpass Hl.
  destruct (refs_ok_lookup_at h _ j l (refs_ok_slice h _ c _ Hok) Hl) as [w Hw].
  eexists _, _. split; [by apply generate_lane_pass_through |].
  cbn [Lane.set_waypoints Lane.waypoints].
  unfold set_waypoint_velocity, heap_update.
  rewrite py_index_nonneg, Nat2Z.id, Hl by lia. cbn. rewrite Hw. cbn.
  split; [reflexivity |]. split.
  - rewrite py_slice_lookahead, lookup_take_Some, lookup_drop in Hl by done.
    by destruct Hl.
  - unfold get_waypoint_velocity. rewrite list_lookup_insert_eq; [done |].
    by eapply lookup_lt_Some.
Qed.

(** X18 — a deceleration lane shares nothing with the stored route.
    [set_waypoint_velocity] on any waypoint of a lane published by the
    deceleration branch leaves every waypoint object of the stored route
    as it was before the tick. *)
Theorem deceleration_lane_is_detached (self : WaypointUpdater) (h h1 h2 : Heap)
    (c : Z) (bl lane : Lane.t) (waypoint : Z) (velocity : R) :
  get_closest_waypoint_index self = Some c ->
  base_lane self = Some bl ->
  refs_ok h (Lane.waypoints bl) ->
  (stopline_wp_index self <> -1)%Z ->
  (stopline_wp_index self < c + LOOKAHEAD_WPS)%Z ->
  generate_lane self h = Some (lane, h1) ->
  set_waypoint_velocity h1 (Lane.waypoints lane) waypoint velocity = Some h2 ->
  forall l, l ∈ Lane.waypoints bl -> is_Some (h !! l) /\ h2 !! l = h !! l.
Proof.
  intros Hc Hbl Hok Hne Hlt Hgen Hset l Hl.
  destruct (generate_lane_decelerate_inv _ _ _ _ _ _ Hc Hbl Hok Hne Hlt Hgen)
    as (_ & _ & Hres & Hh1).
  destruct (refs_ok_lookup h _ l Hok Hl) as [w Hw].
  split; [by eexists |].
  unfold set_waypoint_velocity in Hset.
  destruct (py_index (Lane.waypoints lane) waypoint) as [p |] eqn:Hp; [| done].
  cbn in Hset. apply heap_update_lookup in Hset as (w' & _ & ->).
  apply py_index_elem_of in Hp. rewrite Hres in Hp. apply elem_of_seq in Hp.
  assert (Hlt' : l < length h) by (by eapply lookup_lt_Some).
  rewrite list_lookup_insert_ne by lia.
  rewrite Hh1, Hw. by apply lookup_app_l_Some.
Qed.

(** ** The shape of the profile *)

Lemma chain_distance_to_stop_antitone (pos : Z -> Point.t) (i j so : Z) :
  (i <= j)%Z -> (chain_distance pos j so <= chain_distance pos i so)%R.
Proof.
  intros Hij. destruct (Z_le_gt_dec j so) as [Hle | Hgt].
  - rewrite (chain_distance_split pos i j so) by lia.
    pose proof (chain_distance_nonneg pos i j). lra.
  - rewrite (chain_distance_empty pos j so) by lia.
    apply chain_distance_nonneg.
Qed.

Lemma profile_velocity_monotone (d d' : R) (i : Z) :
  (0 <= d <= d')%R -> (profile_velocity d i <= profile_velocity d' i)%R.
Proof.
  intros [Hd Hdd']. unfold profile_velocity.
  assert (Hs : (sqrt (2 * MAX_DECEL * d) <= sqrt (2 * MAX_DECEL * d'))%R).
  { apply sqrt_le_1_alt. pose proof MAX_DECEL_pos. nra. }
  pose proof (sqrt_pos (2 * MAX_DECEL * d')).
  destruct (Rlt_dec _ _), (Rlt_dec _ _); lra.
Qed.

(** X19 — without the bias the profile falls toward the stop.  When
    [CONSTANT_DECEL] is [0], which is what [1 / LOOKAHEAD_WPS] gives under
    Python 2, the speeds of a deceleration window never rise from one
    waypoint to a later one as long as the base speeds do not rise. *)
Theorem profile_falls_without_bias (self : WaypointUpdater) (h : Heap) (c : Z)
    (bl : Lane.t) (lane : Lane.t) (h' : Heap) (i j : nat) (li lj : loc)
    (bi bj : R) :
  let ws := py_slice (Lane.waypoints bl) c (c + LOOKAHEAD_WPS) in
  CONSTANT_DECEL pyv = 0%R ->
  get_closest_waypoint_index self = Some c ->
  base_lane self = Some bl ->
  refs_ok h (Lane.waypoints bl) ->
  (stopline_wp_index self <> -1)%Z ->
  (stopline_wp_index self < c + LOOKAHEAD_WPS)%Z ->
  generate_lane self h = Some (lane, h') ->
  i <= j ->
  ws !! i = Some li -> ws !! j = Some lj ->
  get_waypoint_velocity h li = Some bi ->
  get_waypoint_velocity h lj = Some bj ->
  (bj <= bi)%R ->
  exists pi pj vi vj,
    Lane.waypoints lane !! i = Some pi
    /\ Lane.waypoints lane !! j = Some pj
    /\ get_waypoint_velocity h' pi = Some vi
    /\ get_waypoint_velocity h' pj = Some vj
    /\ (vj <= vi)%R.
Proof.
  intros ws Hbias Hc Hbl Hok Hne Hlt Hrun Hij Hli Hlj Hbi Hbj Hbase.
  destruct (generate_lane_decelerate_inv _ _ _ _ _ _ Hc Hbl Hok Hne Hlt Hrun)
    as (Hdec & _).
  fold ws in Hdec.
  assert (Hok' : refs_ok h ws) by (by apply refs_ok_slice).
  destruct (refs_ok_lookup_at h ws i li Hok' Hli) as [wi Hwi].
  destruct (refs_ok_lookup_at h ws j lj Hok' Hlj) as [wj Hwj].
  destruct (decelerate_waypoints_lookup _ _ _ _ _ _ i li wi Hok' Hdec Hli Hwi)
    as [Hpi Hobji].
  destruct (decelerate_waypoints_lookup _ _ _ _ _ _ j lj wj Hok' Hdec Hlj Hwj)
    as [Hpj Hobjj].
  unfold get_waypoint_velocity in Hbi, Hbj.
  rewrite Hwi in Hbi. rewrite Hwj in Hbj.
  cbn in Hbi, Hbj. injection Hbi as <-. injection Hbj as <-.
  eexists _, _, _, _. split; [exact Hpi |]. split; [exact Hpj |].
  split; [exact (velocity_of_decelerated _ _ _ _ Hobji) |].
  split; [exact (velocity_of_decelerated _ _ _ _ Hobjj) |].
  set (so := stop_offset (stopline_wp_index self) c).
  set (pos := pos_of h ws).
  assert (Hv : (profile_velocity (chain_distance pos (Z.of_nat j) so)
                  (Z.of_nat j)
                <= profile_velocity (chain_distance pos (Z.of_nat i) so)
                     (Z.of_nat i))%R).
  { transitivity (profile_velocity (chain_distance pos (Z.of_nat i) so)
                    (Z.of_nat j)).
    - apply profile_velocity_monotone. split; [apply chain_distance_nonneg |].
      apply chain_distance_to_stop_antitone. lia.
    - unfold profile_velocity. rewrite Hbias, !Rmult_0_r. lra. }
  apply Rmin_glb.
  - etransitivity; [apply Rmin_l | exact Hv].
  - etransitivity; [apply Rmin_r | exact Hbase].
Qed.

(** ** The size of the published lane *)

Lemma py_slice_past_end {A : Type} (l : list A) (a b : Z) :
  (Z.of_nat (length l) <= a)%Z -> py_slice l a b = [].
Proof.
  intros Ha. unfold py_slice, py_slice_bound.
  destruct (Z.ltb_spec a 0); [lia |].
  rewrite (Z.min_r a) by lia. rewrite drop_ge by lia. apply take_nil.
Qed.

(** X20 — with an index that matches the route the lane is not empty.
    When the position list is as long as the stored route and the tree
    answers with one of its indices, every lane a tick returns has at least
    one waypoint and at most [LOOKAHEAD_WPS]. *)
Theorem published_lane_not_empty (self : WaypointUpdater) (h : Heap)
    (msg : PoseStamped.t) (tree : KDTree) (pts : list (R * R)) (bl : Lane.t)
    (lane : Lane.t) (h' : Heap) :
  let c := KDTree_query tree
             (Point.x (Pose.position (PoseStamped.pose msg)),
              Point.y (Pose.position (PoseStamped.pose msg))) in
  pose self = Some msg ->
  waypoint_tree self = Some tree ->
  waypoints_2d self = Some pts ->
  base_lane self = Some bl ->
  length pts = length (Lane.waypoints bl) ->
  (0 <= c < Z.of_nat (length pts))%Z ->
  refs_ok h (Lane.waypoints bl) ->
  generate_lane self h = Some (lane, h') ->
  (1 <= Z.of_nat (length (Lane.waypoints lane)) <= LOOKAHEAD_WPS)%Z.
Proof.
  intros c Hpose Htree Hpts Hbl Hlen Hc Hok Hrun.
  destruct (closest_index_cases self msg tree pts Hpose Htree Hpts Hc)
    as (r & Hr & Hrange & _).
  destruct (generate_lane_window _ _ _ _ _ _ Hr Hbl Hok Hrun) as [Hwin _].
  rewrite Hwin, py_slice_lookahead, length_take, length_drop by lia.
  unfold LOOKAHEAD_WPS. lia.
Qed.

(** X21 — a closest index past the end of the stored route gives an
    empty lane.  This is what happens after a shorter route replaced the
    stored one while the index still belongs to the first: the slice is
    empty, and in either branch, whatever the stop index, the tick returns
    a lane without waypoints and leaves the store as it is. *)
Theorem empty_lane_past_route (self : WaypointUpdater) (h : Heap) (c : Z)
    (bl : Lane.t) :
  get_closest_waypoint_index self = Some c ->
  base_lane self = Some bl ->
  (Z.of_nat (length (Lane.waypoints bl)) <= c)%Z ->
  generate_lane self h = Some (Lane.set_waypoints Lane.new [], h).
Proof.
  intros Hc Hbl Hpast.
  destruct (branch_dec self c) as [Hpass | [Hne Hlt]].
  - rewrite (generate_lane_pass_through _ _ c bl) by done.
    by rewrite py_slice_past_end.
  - rewrite (generate_lane_decelerate _ _ c bl) by done.
    by rewrite py_slice_past_end.
Qed.

(** ** The example tick at local index 1 *)

(** One waypoint before the stop offset the chain distance is [1] and
    [sqrt(2 * MAX_DECEL * 1) = 1]: the emitted speed is [1] plus the bias
    of the running interpreter. *)
Lemma example_speed_at_1 (tree : KDTree) :
  KDTree_query tree (0%R, 0%R) = 0%Z ->
  exists lane h' p,
    generate_lane (example_self tree 6) example_heap = Some (lane, h')
    /\ Lane.waypoints lane !! 1 = Some p
    /\ get_waypoint_velocity h' p = Some (1 + CONSTANT_DECEL pyv)%R.
Proof.
  intros Hq. pose proof (example_closest tree 6 Hq) as Hc.
  destruct (generate_lane_returns (example_self tree 6) example_heap 0
              example_lane Hc eq_refl example_refs_ok) as (lane & h' & Hrun).
  { right; right; right. rewrite example_slice. reflexivity. }
  destruct (generate_lane_decelerate_inv _ _ _ _ _ _ Hc eq_refl example_refs_ok
              ltac:(done) ltac:(done) Hrun) as (Hdec & _).
  rewrite example_slice in Hdec.
  assert (Hok : refs_ok example_heap (seq 0 10)) by apply example_refs_ok.
  destruct (decelerate_waypoints_lookup _ _ _ _ _ _ 1 1 (example_waypoint 1)
              Hok Hdec eq_refl eq_refl) as [Hp1 Hw1].
  change (stop_offset _ _) with 2%Z in Hw1.
  change (Waypoint.linear_x (example_waypoint _)) with 5%R in Hw1.
  change (Z.of_nat 1) with 1%Z in Hw1.
  rewrite example_chain_1_2, profile_velocity_1_1 in Hw1.
  pose proof CONSTANT_DECEL_bounds as [Hc0 Hc1].
  rewrite Rmin_left in Hw1 by lra.
  exists lane, h', (length example_heap + 1). split; [exact Hrun |].
  split; [exact Hp1 |]. exact (velocity_of_decelerated _ _ _ _ Hw1).
Qed.

(** The same waypoint in the specification's formula. *)
Lemma spec_velocity_1_1 : spec_velocity 1 1 = (1 + 1 / 100)%R.
Proof.
  unfold spec_velocity, spec_CONSTANT_DECEL, MAX_DECEL, LOOKAHEAD_WPS.
  replace (2 * 0.5 * 1)%R with 1%R by lra. rewrite sqrt_1, Rmult_1_l.
  destruct (Rlt_dec _ _) as [Hlt | _]; [lra | done].
Qed.

End WaypointUpdater.

(** ** The example route as an instance

    The example node with the stand-in tree: the hypotheses of the
    theorems above hold there. *)

Lemma example_closest_first (stop : Z) :
  get_closest_waypoint_index nearest_is_first (example_self tt stop) = Some 0%Z.
Proof. by apply example_closest. Qed.

Lemma example_slice_nonempty :
  py_slice (Lane.waypoints example_lane) 0 (0 + LOOKAHEAD_WPS) <> [].
Proof. by rewrite example_slice. Qed.

Lemma example_speeds (l : loc) (v : R) :
  get_waypoint_velocity example_heap l = Some v -> v = 5%R.
Proof.
  unfold get_waypoint_velocity, example_heap. rewrite list_lookup_fmap.
  destruct (example_indices !! l); [| done]. cbn. by intros [= <-].
Qed.

Lemma example_speeds_nonneg (l : loc) (v : R) :
  l ∈ py_slice (Lane.waypoints example_lane) 0 (0 + LOOKAHEAD_WPS) ->
  get_waypoint_velocity example_heap l = Some v -> (0 <= v)%R.
Proof. intros _ Hv. rewrite (example_speeds l v Hv). lra. Qed.

Lemma example_stop_in_slice :
  (stop_offset (stopline_wp_index (example_self tt 6)) 0
   < Z.of_nat (length (py_slice (Lane.waypoints example_lane) 0
                         (0 + LOOKAHEAD_WPS))))%Z.
Proof. reflexivity. Qed.

Lemma example_tick_returns (v : PyVersion) :
  exists lane h',
    generate_lane v nearest_is_first (example_self tt 6) example_heap
    = Some (lane, h').
Proof.
  apply (generate_lane_returns v nearest_is_first (example_self tt 6)
           example_heap 0 example_lane (example_closest_first 6) eq_refl
           example_refs_ok).
  right; right; right. exact example_stop_in_slice.
Qed.

(** A stop index beyond the end of the route (here 50, on ten
    waypoints) sends [distance] past the end of the slice: the tick
    raises. *)
Lemma stop_beyond_route_raises :
  generate_lane Py3 nearest_is_first (example_self tt 50) example_heap = None.
Proof.
  rewrite (generate_lane_decelerate Py3 nearest_is_first (example_self tt 50)
             example_heap 0 example_lane (example_closest_first 50) eq_refl)
    by done.
  rewrite decelerate_waypoints_raises; [done | | done | done].
  rewrite example_slice. exact example_refs_ok.
Qed.

(** ** The bias under Python 2 *)

(** C2 — the deceleration formula, where the code leaves it.  The
    specification's bias is [CONSTANT_DECEL = 1 / LOOKAHEAD = 0.01], and
    the code's comment calls the constant a deceleration constant for
    smoother braking.  The code computes it as [1 / LOOKAHEAD_WPS] on two
    integers, which under Python 2 is floor division: the constant is [0]
    and the term [i * CONSTANT_DECEL] vanishes.  On the ten-waypoint
    example route (vehicle at waypoint 0, stop index 6, base speed
    [5.0]) the waypoint at local index 1 is at chain distance [1] from
    the stop offset; the formula of the specification gives it the speed
    [min(sqrt(2 * 0.5 * 1) + 1 * 0.01, 5.0) = 1.01], the tick under
    Python 2 emits [1.0], and the tick under Python 3 emits [1.01]. *)
Theorem constant_decel_floor_division :
  CONSTANT_DECEL Py2 = 0%R
  /\ spec_CONSTANT_DECEL = (1 / 100)%R
  /\ Rmin (spec_velocity (chain_distance (pos_of example_heap (seq 0 10)) 1 2) 1)
          (Waypoint.linear_x (example_waypoint 1))
     = (1 + 1 / 100)%R
  /\ (exists lane h' p,
        generate_lane Py2 nearest_is_first (example_self tt 6) example_heap
        = Some (lane, h')
        /\ Lane.waypoints lane !! 1 = Some p
        /\ get_waypoint_velocity h' p = Some 1%R
        /\ get_waypoint_velocity h' p
           <> Some (Rmin (spec_velocity
                            (chain_distance (pos_of example_heap (seq 0 10)) 1 2)
                            1)
                         (Waypoint.linear_x (example_waypoint 1))))
  /\ (exists lane h' p,
        generate_lane Py3 nearest_is_first (example_self tt 6) example_heap
        = Some (lane, h')
        /\ Lane.waypoints lane !! 1 = Some p
        /\ get_waypoint_velocity h' p = Some (1 + 1 / 100)%R).
Proof.
  assert (Hspec : Rmin (spec_velocity
                          (chain_distance (pos_of example_heap (seq 0 10)) 1 2)
                          1)
                       (Waypoint.linear_x (example_waypoint 1))
                  = (1 + 1 / 100)%R).
  { rewrite example_chain_1_2, spec_velocity_1_1.
    change (Waypoint.linear_x (example_waypoint 1)) with 5%R.
    apply Rmin_left. lra. }
  split; [exact (CONSTANT_DECEL_value Py2) |].
  split; [unfold spec_CONSTANT_DECEL, LOOKAHEAD_WPS; lra |].
  split; [exact Hspec |]. split.
  - destruct (example_speed_at_1 Py2 nearest_is_first tt eq_refl)
      as (lane & h' & p & Hrun & Hp & Hv).
    rewrite (CONSTANT_DECEL_value Py2), Rplus_0_r in Hv.
    exists lane, h', p. split; [exact Hrun |]. split; [exact Hp |].
    split; [exact Hv |]. rewrite Hv, Hspec. intros [= Heq]. lra.
  - destruct (example_speed_at_1 Py3 nearest_is_first tt eq_refl)
      as (lane & h' & p & Hrun & Hp & Hv).
    rewrite (CONSTANT_DECEL_value Py3) in Hv.
    exists lane, h', p. by repeat split.
Qed.

Lemma stop_convergence_witness :
  exists lane h',
    generate_lane Py3 nearest_is_first (example_self tt 6) example_heap
    = Some (lane, h')
    /\ (exists p, Lane.waypoints lane !! 2 = Some p
                  /\ get_waypoint_velocity h' p = Some 0%R)
    /\ (forall j p, (2 <= Z.of_nat j)%Z ->
                    Lane.waypoints lane !! j = Some p ->
                    get_waypoint_velocity h' p = Some 0%R).
Proof.
  destruct (stop_convergence Py3 nearest_is_first (example_self tt 6)
              example_heap 0 example_lane (example_closest_first 6) eq_refl
              example_refs_ok example_slice_nonempty ltac:(done) ltac:(done)
              example_speeds_nonneg) as [Hret Hall].
  destruct (Hret example_stop_in_slice) as (lane & h' & Hrun).
  exists lane, h'. split; [exact Hrun |]. exact (Hall lane h' Hrun).
Defined.

Lemma route_index_set_once_witness :
  exists s1 s2,
    waypoints_cb unit_tree init two_waypoints first_route = Some s1
    /\ waypoints_cb unit_tree s1 two_waypoints second_route = Some s2
    /\ waypoints_2d s2 = waypoints_2d s1
    /\ waypoint_tree s2 = waypoint_tree s1.
Proof.
  eexists.
  destruct (route_index_set_once unit_tree init _ two_waypoints two_waypoints
              first_route second_route eq_refl ltac:(done) eq_refl)
    as (_ & s2 & Hsecond & H2d & Htree & _).
  exists s2. split; [reflexivity |]. split; [exact Hsecond |].
  split; [exact H2d | exact Htree].
Defined.

(** C3, as the specification states it, fails: the second route message
    replaces the stored base route.  Only the positions and the tree
    survive, so the state after the second call differs from the state
    before it. *)
Lemma second_route_replaces_first :
  exists s1 s2,
    waypoints_cb unit_tree init two_waypoints first_route = Some s1
    /\ waypoints_cb unit_tree s1 two_waypoints second_route = Some s2
    /\ base_lane s1 = Some first_route
    /\ base_lane s2 = Some second_route
    /\ base_lane s2 <> base_lane s1
    /\ s2 <> s1.
Proof.
  eexists _, _. split; [reflexivity |]. split; [reflexivity |].
  split; [reflexivity |]. split; [reflexivity |].
  split; intros Heq; discriminate Heq.
Qed.

Lemma directionality_correction_witness :
  get_closest_waypoint_index nearest_is_first
    (pose_cb (example_self tt (-1)) pose_before_start) = Some 1%Z
  /\ get_closest_waypoint_index nearest_is_first (example_self tt (-1))
     = Some 0%Z
  /\ (dot (vsub (0, 0) (9, 0)) (vsub (0, 0) (0, 0)) = 0
      /\ get_closest_waypoint_index nearest_is_first (example_self tt (-1))
         = Some 0%Z)%R.
Proof.
  split.
  - refine (proj1 (directionality_correction nearest_is_first
                     (pose_cb (example_self tt (-1)) pose_before_start)
                     pose_before_start tt example_points (0, 0)%R (9, 0)%R
                     eq_refl eq_refl eq_refl _ eq_refl eq_refl) _).
    + unfold nearest_is_first. simpl. lia.
    + unfold dot, vsub. cbn. lra.
  - destruct (directionality_correction nearest_is_first
                (example_self tt (-1)) PoseStamped.new tt example_points
                (0, 0)%R (9, 0)%R eq_refl eq_refl eq_refl
                ltac:(unfold nearest_is_first; simpl; lia) eq_refl eq_refl)
      as (_ & Hkeep & Hvertex).
    split.
    + apply Hkeep. unfold dot, vsub. cbn. lra.
    + apply Hvertex. reflexivity.
Defined.

Lemma long_closest_first :
  get_closest_waypoint_index nearest_is_first (long_self tt) = Some 0%Z.
Proof.
  unfold get_closest_waypoint_index, long_self.
  cbn [pose waypoint_tree waypoints_2d mbind option_bind].
  unfold nearest_is_first.
  change (py_index _ 0%Z) with (@Some (R * R) (0%R, 0%R)).
  change (py_index _ (0 - 1)%Z) with (@Some (R * R) (0%R, 0%R)).
  cbn [mbind option_bind].
  destruct (Rlt_dec _ _) as [Hlt | _]; [| done].
  unfold dot, vsub in Hlt. cbn in Hlt. lra.
Qed.

Lemma long_refs_ok : refs_ok long_heap (Lane.waypoints long_lane).
Proof.
  unfold refs_ok. rewrite Forall_forall. intros l Hl.
  apply elem_of_seq in Hl. unfold long_heap. rewrite length_replicate. lia.
Qed.

Lemma window_bounding_witness :
  (exists lane h',
     generate_lane Py3 nearest_is_first (example_self tt 6) example_heap
     = Some (lane, h')
     /\ (Z.of_nat (length (Lane.waypoints lane)) <= LOOKAHEAD_WPS)%Z
     /\ Z.of_nat (length (Lane.waypoints lane)) = (10 - 0)%Z)
  /\ (exists lane h',
        generate_lane Py3 nearest_is_first (long_self tt) long_heap
        = Some (lane, h')
        /\ Z.of_nat (length (Lane.waypoints lane)) = LOOKAHEAD_WPS).
Proof.
  split.
  - destruct (window_bounding Py3 nearest_is_first (example_self tt 6)
                example_heap 0 example_lane (example_closest_first 6) eq_refl
                example_refs_ok ltac:(change (0 <= 0 < 10)%Z; lia))
      as [Hret Hall].
    destruct (Hret ltac:(right; change (6 < 10)%Z; lia))
      as (lane & h' & Hrun).
    exists lane, h'. split; [exact Hrun |].
    destruct (Hall lane h' Hrun) as (Hle & _ & Hshort & _).
    split; [exact Hle |]. apply Hshort. change (10 < 0 + 100)%Z. lia.
  - destruct (window_bounding Py3 nearest_is_first (long_self tt) long_heap 0
                long_lane long_closest_first eq_refl long_refs_ok
                ltac:(change (0 <= 0 < 100)%Z; lia))
      as [Hret Hall].
    destruct (Hret ltac:(left; reflexivity)) as (lane & h' & Hrun).
    exists lane, h'. split; [exact Hrun |].
    destruct (Hall lane h' Hrun) as (_ & Hfull & _).
    apply Hfull. change (0 + 100 <= 100)%Z. lia.
Defined.

Lemma speed_cap_witness :
  exists lane h',
    generate_lane Py3 nearest_is_first (example_self tt 6) example_heap
    = Some (lane, h')
    /\ length (Lane.waypoints lane) = 10
    /\ forall (j : nat) (p : loc),
         Lane.waypoints lane !! j = Some p ->
         exists l v base,
           seq 0 10 !! j = Some l
           /\ get_waypoint_velocity h' p = Some v
           /\ get_waypoint_velocity example_heap l = Some base
           /\ (v <= base)%R.
Proof.
  destruct (speed_cap Py3 nearest_is_first (example_self tt 6) example_heap 0
              example_lane (example_closest_first 6) eq_refl example_refs_ok)
    as [Hret Hall].
  destruct (Hret ltac:(right; right; right; exact example_stop_in_slice))
    as (lane & h' & Hrun).
  exists lane, h'. split; [exact Hrun |]. exact (Hall lane h' Hrun).
Defined.

Lemma pass_through_witness :
  exists lane,
    generate_lane Py3 nearest_is_first (example_self tt (-1)) example_heap
    = Some (lane, example_heap)
    /\ Lane.waypoints lane = seq 0 10
    /\ get_waypoint_velocity example_heap <$> Lane.waypoints lane
       = get_waypoint_velocity example_heap <$> seq 0 10.
Proof.
  exact (pass_through Py3 nearest_is_first (example_self tt (-1)) example_heap
           0 example_lane (example_closest_first (-1)) eq_refl
           (or_introl eq_refl)).
Defined.

Lemma end_to_end_example_witness :
  exists lane h' p0 p1 p2,
    generate_lane Py3 nearest_is_first (example_self tt 6) example_heap
    = Some (lane, h')
    /\ Lane.waypoints lane !! 0 = Some p0
    /\ Lane.waypoints lane !! 1 = Some p1
    /\ Lane.waypoints lane !! 2 = Some p2
    /\ get_waypoint_velocity h' p0 = Some (sqrt 2)
    /\ get_waypoint_velocity h' p1 = Some (1 + CONSTANT_DECEL Py3)%R
    /\ get_waypoint_velocity h' p2 = Some 0%R.
Proof.
  destruct (end_to_end_example Py3 nearest_is_first tt eq_refl)
    as (_ & _ & _ & lane & h' & p0 & p1 & p2 & v0 & v1 & Hrun & H0 & H1 & H2
        & Hv0 & Hv1 & Hv2 & -> & -> & _).
  exists lane, h', p0, p1, p2. repeat split; assumption.
Defined.

Lemma planning_frame_witness :
  exists lane h',
    loop_body Py3 nearest_is_first (example_self tt 6) example_heap
    = Some (Some lane, h')
    /\ (forall l w, example_heap !! l = Some w -> h' !! l = Some w)
    /\ (is_Some (example_heap !! 9) /\ h' !! 9 = example_heap !! 9)
    /\ NoDup (Lane.waypoints lane)
    /\ forall (j : nat) (p : loc),
         Lane.waypoints lane !! j = Some p ->
         example_heap !! p = None
         /\ exists l w v,
              seq 0 10 !! j = Some l
              /\ example_heap !! l = Some w
              /\ h' !! p
                 = Some (Waypoint.set_linear_x
                           (Waypoint.set_pose Waypoint.new (Waypoint.pose w)) v).
Proof.
  destruct (example_tick_returns Py3) as (lane & h' & Hrun).
  assert (Hloop : loop_body Py3 nearest_is_first (example_self tt 6)
                    example_heap
                  = Some (Some lane, h')).
  { unfold loop_body, publish_waypoints.
    cbn [truthy_msg example_self pose base_lane andb].
    rewrite Hrun. reflexivity. }
  exists lane, h'. split; [exact Hloop |].
  destruct (planning_frame Py3 nearest_is_first (example_self tt 6)
              example_heap (Some lane) h') as (Hframe & Hbase & Hnew).
  - intros bl [= <-]. exact example_refs_ok.
  - exact Hloop.
  - split; [exact Hframe |].
    split.
    { apply (Hbase example_lane 9 eq_refl). apply elem_of_seq. lia. }
    exact (Hnew 0%Z example_lane lane (example_closest_first 6) eq_refl eq_refl
             ltac:(done) ltac:(done)).
Defined.


(** ** Instances of the further properties *)

Lemma set_then_get_velocity_witness :
  exists h',
    set_waypoint_velocity example_heap (seq 0 10) (-1) 3 = Some h'
    /\ get_waypoint_velocity h' 9 = Some 3%R
    /\ (exists w', h' !! 9 = Some w'
                   /\ Waypoint.pose w' = Waypoint.pose (example_waypoint 9))
    /\ length h' = length example_heap
    /\ forall l', l' <> 9 -> h' !! l' = example_heap !! l'.
Proof.
  exact (set_then_get_velocity example_heap (seq 0 10) (-1) 3 9
           (example_waypoint 9) eq_refl eq_refl).
Defined.

Lemma set_waypoint_velocity_raises_witness :
  set_waypoint_velocity example_heap (seq 0 10) 10 3 = None.
Proof.
  apply (set_waypoint_velocity_raises example_heap (seq 0 10) 10 3
           example_refs_ok).
  right. change (10 <= 10)%Z. lia.
Defined.

Lemma distance_monotone_witness :
  exists dab dbc,
    distance example_heap (seq 0 10) 0 1 = Some dab
    /\ distance example_heap (seq 0 10) 1 2 = Some dbc
    /\ (0 <= dab <= 2)%R /\ (0 <= dbc <= 2)%R.
Proof.
  apply (distance_monotone example_heap (seq 0 10) 0 1 2 2 example_refs_ok
           ltac:(lia) ltac:(lia)).
  rewrite <- example_chain_0_2. apply distance_in_bounds.
  - exact example_refs_ok.
  - change (- 10 <= 0)%Z. lia.
  - lia.
  - change (2 < 10)%Z. lia.
Defined.

Lemma distance_raises_witness :
  distance example_heap (seq 0 10) 0 10 = None.
Proof.
  apply (distance_raises example_heap (seq 0 10) 0 10); [lia |].
  right. change (10 <= 10)%Z. lia.
Defined.

Lemma generate_lane_raises_witness :
  generate_lane Py3 nearest_is_first (example_self tt 50) example_heap = None.
Proof.
  apply (generate_lane_raises Py3 nearest_is_first (example_self tt 50)
           example_heap 0 example_lane (example_closest_first 50) eq_refl
           example_refs_ok); [done | done | exact example_slice_nonempty |].
  change (10 <= 46)%Z. lia.
Defined.

Lemma deceleration_speed_sign_witness :
  exists lane h' p v,
    generate_lane Py3 nearest_is_first (example_self tt 6) example_heap
    = Some (lane, h')
    /\ Lane.waypoints lane !! 0 = Some p
    /\ get_waypoint_velocity h' p = Some v
    /\ (0 <= v <= 5)%R /\ (v = 5%R \/ v = 0%R \/ (1 <= v)%R).
Proof.
  destruct (example_tick_returns Py3) as (lane & h' & Hrun).
  destruct (deceleration_speed_sign Py3 nearest_is_first (example_self tt 6)
              example_heap 0 example_lane lane h' 0 0 5
              (example_closest_first 6) eq_refl example_refs_ok ltac:(done)
              ltac:(done) Hrun eq_refl eq_refl)
    as (p & v & Hp & Hv & Hpos & _).
  exists lane, h', p, v. split; [exact Hrun |]. split; [exact Hp |].
  split; [exact Hv |]. apply Hpos. lra.
Defined.

Lemma stop_within_margin_witness :
  exists lane h',
    generate_lane Py3 nearest_is_first (example_self tt 3) example_heap
    = Some (lane, h')
    /\ length (Lane.waypoints lane) = 10
    /\ forall p, p ∈ Lane.waypoints lane ->
                 get_waypoint_velocity h' p = Some 0%R.
Proof.
  destruct (stop_within_margin Py3 nearest_is_first (example_self tt 3)
              example_heap 0 example_lane (example_closest_first 3) eq_refl
              example_refs_ok ltac:(done) ltac:(done))
    as (lane & h' & Hrun & Hlen & Hzero).
  exists lane, h'. split; [exact Hrun |]. split; [exact Hlen |].
  exact (Hzero example_speeds_nonneg).
Defined.

Lemma closest_index_in_route_witness :
  exists r,
    get_closest_waypoint_index nearest_is_first (example_self tt 6) = Some r
    /\ (0 <= r < 10)%Z
    /\ (r = 0 \/ (0 < 10 - 1 /\ r = 0 + 1) \/ (0 = 10 - 1 /\ r = 0))%Z.
Proof.
  exact (closest_index_in_route nearest_is_first (example_self tt 6)
           PoseStamped.new tt example_points eq_refl eq_refl eq_refl
           ltac:(change (0 <= 0 < 10)%Z; lia)).
Defined.

Lemma closest_index_raises_witness :
  get_closest_waypoint_index nearest_is_first
    (mkWaypointUpdater (Some example_lane) (Some PoseStamped.new) 6 (Some [])
       (Some tt))
  = None.
Proof.
  exact (proj2 (closest_index_raises nearest_is_first
                  (mkWaypointUpdater (Some example_lane) (Some PoseStamped.new)
                     6 (Some []) (Some tt))
                  PoseStamped.new tt [] eq_refl eq_refl eq_refl) eq_refl).
Defined.

Lemma first_route_builds_index_witness :
  exists s pts,
    waypoints_cb unit_tree init two_waypoints first_route = Some s
    /\ base_lane s = Some first_route
    /\ waypoints_2d s = Some pts
    /\ length pts = 1.
Proof.
  destruct (first_route_builds_index unit_tree init two_waypoints first_route
              eq_refl ltac:(repeat constructor))
    as (s & pts & Hs & Hbl & H2d & Hlen & _).
  exists s, pts. repeat split; assumption.
Defined.

Lemma latest_message_wins_witness :
  exists s,
    deliver_all unit_tree init two_waypoints
      [TrafficWaypoint 3; CurrentPose pose_before_start; TrafficWaypoint 7]
    = Some s
    /\ pose s = Some pose_before_start
    /\ base_lane s = None
    /\ stopline_wp_index s = 7%Z.
Proof.
  eexists. split; [reflexivity |].
  exact (latest_message_wins unit_tree init _ two_waypoints
           [TrafficWaypoint 3; CurrentPose pose_before_start; TrafficWaypoint 7]
           eq_refl).
Defined.

Lemma index_never_rebuilt_witness :
  exists s,
    deliver_all unit_tree (example_self tt 6) example_heap
      [BaseWaypoints first_route; TrafficWaypoint 2]
    = Some s
    /\ waypoints_2d s = Some example_points
    /\ waypoint_tree s = Some tt.
Proof.
  destruct (index_never_rebuilt unit_tree nearest_is_first (example_self tt 6)
              example_heap [BaseWaypoints first_route; TrafficWaypoint 2]
              eq_refl) as (s & Hs & H2d & Htree & _).
  exists s. repeat split; assumption.
Defined.

Lemma index_of_first_nonempty_route_witness :
  exists s pts,
    deliver_all unit_tree init two_waypoints
      [BaseWaypoints Lane.new; BaseWaypoints first_route;
       BaseWaypoints second_route]
    = Some s
    /\ base_lane s = Some second_route
    /\ positions_2d two_waypoints (Lane.waypoints first_route) = Some pts
    /\ waypoints_2d s = Some pts.
Proof.
  destruct (index_of_first_nonempty_route unit_tree init two_waypoints
              [BaseWaypoints Lane.new; BaseWaypoints first_route;
               BaseWaypoints second_route] eq_refl)
    as (s & Hs & Hbl & pts & Hpts & H2d & _).
  { repeat constructor; intros r [= <-]; repeat constructor. }
  exists s, pts. repeat split; assumption.
Defined.

Lemma nothing_published_before_pose_and_route_witness :
  loop_body Py3 nearest_is_first
    (mkWaypointUpdater (Some first_route) None 3 (Some [(0, 0)%R]) (Some tt))
    two_waypoints
  = Some (None, two_waypoints).
Proof.
  apply (nothing_published_before_pose_and_route Py3 unit_tree nearest_is_first
           _ two_waypoints two_waypoints
           [TrafficWaypoint 3; BaseWaypoints first_route] eq_refl).
  left. repeat constructor.
Defined.

Lemma example_delivered :
  deliver_all unit_tree init example_heap
    [BaseWaypoints example_lane; CurrentPose PoseStamped.new]
  = Some (example_self tt (-1)).
Proof. reflexivity. Qed.

Lemma example_pass_through_tick :
  loop_body Py3 nearest_is_first (example_self tt (-1)) example_heap
  = Some (Some (Lane.set_waypoints Lane.new (seq 0 10)), example_heap).
Proof.
  unfold loop_body, publish_waypoints.
  cbn [truthy_msg example_self pose base_lane andb].
  by rewrite (generate_lane_pass_through Py3 nearest_is_first
                (example_self tt (-1)) example_heap 0 example_lane
                (example_closest_first (-1)) eq_refl (or_introl eq_refl)).
Qed.

Lemma no_deceleration_before_traffic_message_witness :
  stopline_wp_index (example_self tt (-1)) = (-1)%Z
  /\ exists c bl,
       get_closest_waypoint_index nearest_is_first (example_self tt (-1))
       = Some c
       /\ base_lane (example_self tt (-1)) = Some bl
       /\ seq 0 10 = py_slice (Lane.waypoints bl) c (c + LOOKAHEAD_WPS).
Proof.
  destruct (no_deceleration_before_traffic_message Py3 unit_tree
              nearest_is_first (example_self tt (-1)) example_heap example_heap
              example_heap
              [BaseWaypoints example_lane; CurrentPose PoseStamped.new]
              (Some (Lane.set_waypoints Lane.new (seq 0 10)))
              example_delivered ltac:(repeat constructor)
              example_pass_through_tick) as (Hstop & _ & Hlane).
  split; [exact Hstop |]. exact (Hlane _ eq_refl).
Defined.

Lemma pass_through_lane_shares_route_witness :
  exists lane h',
    generate_lane Py3 nearest_is_first (example_self tt (-1)) example_heap
    = Some (lane, example_heap)
    /\ set_waypoint_velocity example_heap (Lane.waypoints lane) 3 2 = Some h'
    /\ Lane.waypoints example_lane !! 3 = Some 3
    /\ get_waypoint_velocity h' 3 = Some 2%R.
Proof.
  exact (pass_through_lane_shares_route Py3 nearest_is_first
           (example_self tt (-1)) example_heap 0 example_lane 3 3 2
           (example_closest_first (-1)) eq_refl example_refs_ok ltac:(lia)
           (or_introl eq_refl) eq_refl).
Defined.

Lemma deceleration_lane_is_detached_witness :
  exists lane h1 h2,
    generate_lane Py3 nearest_is_first (example_self tt 6) example_heap
    = Some (lane, h1)
    /\ set_waypoint_velocity h1 (Lane.waypoints lane) 0 8 = Some h2
    /\ forall l, l ∈ seq 0 10 ->
                 is_Some (example_heap !! l) /\ h2 !! l = example_heap !! l.
Proof.
  destruct (example_tick_returns Py3) as (lane & h1 & Hrun).
  destruct (generate_lane_decelerate_inv Py3 nearest_is_first
              (example_self tt 6) example_heap 0 example_lane lane h1
              (example_closest_first 6) eq_refl example_refs_ok ltac:(done)
              ltac:(done) Hrun) as (_ & _ & Hres & Hh1).
  assert (Hp : py_index (Lane.waypoints lane) 0 = Some 10)
    by (by rewrite Hres).
  assert (Hw : is_Some (h1 !! 10)).
  { apply lookup_lt_is_Some. rewrite Hh1, length_app, profile_outputs_length.
    rewrite example_slice. cbn. lia. }
  destruct Hw as [w Hw].
  pose proof (set_waypoint_velocity_returns h1 (Lane.waypoints lane) 0 8 10 w
                Hp Hw) as Hset.
  eexists lane, h1, _. split; [exact Hrun |]. split; [exact Hset |].
  exact (deceleration_lane_is_detached Py3 nearest_is_first (example_self tt 6)
           example_heap h1 _ 0 example_lane lane 0 8 (example_closest_first 6)
           eq_refl example_refs_ok ltac:(done) ltac:(done) Hrun Hset).
Defined.

Lemma profile_falls_without_bias_witness :
  exists lane h' p0 p1 v0 v1,
    generate_lane Py2 nearest_is_first (example_self tt 6) example_heap
    = Some (lane, h')
    /\ Lane.waypoints lane !! 0 = Some p0
    /\ Lane.waypoints lane !! 1 = Some p1
    /\ get_waypoint_velocity h' p0 = Some v0
    /\ get_waypoint_velocity h' p1 = Some v1
    /\ (v1 <= v0)%R.
Proof.
  destruct (example_tick_returns Py2) as (lane & h' & Hrun).
  destruct (profile_falls_without_bias Py2 nearest_is_first (example_self tt 6)
              example_heap 0 example_lane lane h' 0 1 0 1 5 5 eq_refl
              (example_closest_first 6) eq_refl example_refs_ok ltac:(done)
              ltac:(done) Hrun ltac:(lia) eq_refl eq_refl eq_refl eq_refl
              ltac:(lra))
    as (p0 & p1 & v0 & v1 & H).
  exists lane, h', p0, p1, v0, v1. split; [exact Hrun | exact H].
Defined.

Lemma published_lane_not_empty_witness :
  exists lane h',
    generate_lane Py3 nearest_is_first (example_self tt 6) example_heap
    = Some (lane, h')
    /\ (1 <= Z.of_nat (length (Lane.waypoints lane)) <= LOOKAHEAD_WPS)%Z.
Proof.
  destruct (example_tick_returns Py3) as (lane & h' & Hrun).
  exists lane, h'. split; [exact Hrun |].
  exact (published_lane_not_empty Py3 nearest_is_first (example_self tt 6)
           example_heap PoseStamped.new tt example_points example_lane lane h'
           eq_refl eq_refl eq_refl eq_refl eq_refl
           ltac:(change (0 <= 0 < 10)%Z; lia) example_refs_ok Hrun).
Defined.

Lemma closest_before_start (bl : option Lane.t) (stop : Z) :
  get_closest_waypoint_index nearest_is_first
    (mkWaypointUpdater bl (Some pose_before_start) stop (Some example_points)
       (Some tt))
  = Some 1%Z.
Proof.
  unfold get_closest_waypoint_index.
  cbn [pose waypoint_tree waypoints_2d mbind option_bind].
  unfold nearest_is_first.
  change (py_index _ 0%Z) with (@Some (R * R) (0%R, 0%R)).
  change (py_index _ (0 - 1)%Z) with (@Some (R * R) (9%R, 0%R)).
  cbn [mbind option_bind].
  destruct (Rlt_dec _ _) as [_ | Hge]; [reflexivity |].
  exfalso. apply Hge. unfold dot, vsub. cbn. lra.
Qed.

Lemma empty_lane_past_route_witness :
  generate_lane Py3 nearest_is_first
    (mkWaypointUpdater (Some first_route) (Some pose_before_start) 0
       (Some example_points) (Some tt))
    two_waypoints
  = Some (Lane.set_waypoints Lane.new [], two_waypoints).
Proof.
  exact (empty_lane_past_route Py3 nearest_is_first _ two_waypoints 1
           first_route (closest_before_start (Some first_route) 0) eq_refl
           ltac:(change (1 <= 1)%Z; lia)).
Defined.

